(** * Dashboard Plugins API Hub: the mastery aggregation and its neighbours

    A shallow embedding of [src/routes/math.routes.ts] (relation enrichment
    and the practice-history mastery aggregation) and of the configuration
    read by [src/index.ts], followed by the properties of the design
    specification checked against it.

    Conventions of the embedding.
    - A JavaScript [Map] is an insertion-ordered association list: [set] on
      a key that is present replaces the value in place, [set] on a new key
      appends, and [values()] lists the values in insertion order.
    - Counters and latencies are integers far below 2^53, where double
      arithmetic is exact: they are values of [Z].
    - A division or a product whose result need not be an integer is
      rounded to the nearest binary64 number, as the runtime does: [RN]
      below.  The value of a double is kept as a reduced rational.
    - [new Date(s)] never throws: an unparseable string gives a date whose
      time value is NaN, here [None], and a comparison with NaN is false. *)

From Stdlib Require Import List String Ascii Bool ZArith QArith Qround Lia Lqa.
From Stdlib Require Import PrimFloat FloatOps SpecFloat Uint63.
From Stdlib Require Import Permutation.
Import ListNotations.
Open Scope Z_scope.

Set Implicit Arguments.

(* ------------------------------------------------------------------ *)
(** ** JavaScript [Map] as an insertion-ordered association list       *)

Module JSMap.
Section Defs.
Variables K V : Type.
Variable eqb : K -> K -> bool.

Definition t := list (K * V).

Definition empty : t := [].

Fixpoint get (m : t) (k : K) : option V :=
  match m with
  | [] => None
  | (k', v) :: rest => if eqb k k' then Some v else get rest k
  end.

Definition has (m : t) (k : K) : bool :=
  match get m k with Some _ => true | None => false end.

Fixpoint set (m : t) (k : K) (v : V) : t :=
  match m with
  | [] => [(k, v)]
  | (k', v') :: rest =>
      if eqb k k' then (k', v) :: rest else (k', v') :: set rest k v
  end.

Definition values (m : t) : list V := map snd m.

Definition keys (m : t) : list K := map fst m.

(** [new Map(entries)]: the entries are set one after the other. *)
Definition of_entries (entries : list (K * V)) : t :=
  fold_left (fun m kv => set m (fst kv) (snd kv)) entries empty.
End Defs.
End JSMap.

(* ------------------------------------------------------------------ *)
(** ** Values that cross the query gateway                             *)

(** A row identifier: the store hands out numbers or strings. *)
Inductive Id : Type :=
| IdNum (n : Z)
| IdStr (s : string).

Definition Id_eqb (a b : Id) : bool :=
  match a, b with
  | IdNum x, IdNum y => Z.eqb x y
  | IdStr x, IdStr y => String.eqb x y
  | _, _ => false
  end.

(** JavaScript truthiness of a nullable identifier: [null], [0] and the
    empty string are falsy. *)
Definition truthy_id (o : option Id) : bool :=
  match o with
  | None => false
  | Some (IdNum n) => negb (Z.eqb n 0)
  | Some (IdStr s) => negb (String.eqb s "")
  end.

(** [a || b] on nullable identifiers. *)
Definition or_id (a b : option Id) : option Id :=
  if truthy_id a then a else b.

(** Truthiness of a nullable number: [null] and [0] are falsy. *)
Definition truthy_num (o : option Z) : bool :=
  match o with
  | None => false
  | Some n => negb (Z.eqb n 0)
  end.

(* ------------------------------------------------------------------ *)
(** ** Double-precision arithmetic                                     *)

(** Nearest integer to [a / b], ties to even. *)
Definition round_half_even (a : Z) (b : Z) : Z :=
  let q := a / b in
  let r := a mod b in
  match 2 * r ?= b with
  | Lt => q
  | Gt => q + 1
  | Eq => if Z.even q then q else q + 1
  end.

(** [binade n d] is the exponent [e] with [2^e <= n/d < 2^(e+1)]. *)
Definition binade (n d : Z) : Z :=
  let e0 := Z.log2 n - Z.log2 d in
  if d * 2 ^ Z.max 0 e0 <=? n * 2 ^ Z.max 0 (- e0) then e0 else e0 - 1.

(** Rounding of a positive rational [n/d] to 53 significant bits. *)
Definition RN_pos (n d : Z) : Q :=
  let k := binade n d - 52 in
  if 0 <=? k
  then inject_Z (round_half_even n (d * 2 ^ k) * 2 ^ k)
  else Qred (Qmake (round_half_even (n * 2 ^ (- k)) d) (Z.to_pos (2 ^ (- k)))).

(** Round to nearest binary64, ties to even (the exponent range of
    binary64 is never left by the quantities of this file). *)
Definition RN (x : Q) : Q :=
  match Qnum x with
  | Z0 => 0%Q
  | Zpos n => RN_pos (Zpos n) (Zpos (Qden x))
  | Zneg n => Qopp (RN_pos (Zpos n) (Zpos (Qden x)))
  end.

Definition js_div (a b : Q) : Q := RN (a / b).
Definition js_mul (a b : Q) : Q := RN (a * b).

(** [Math.round]: the integer nearest to [x], ties towards +infinity. *)
Definition Math_round (x : Q) : Z := Qfloor (x + (1 # 2)).

(** The same computation on the kernel's binary64 numbers, to compare
    [RN] with. *)
Module Binary64.
Definition of_Z (z : Z) : float := PrimFloat.of_uint63 (Uint63.of_Z z).

Definition to_Q (f : float) : option Q :=
  match Prim2SF f with
  | S754_zero _ => Some 0%Q
  | S754_finite s m e =>
      let v := if 0 <=? e then inject_Z (Zpos m * 2 ^ e)
               else Qred (Qmake (Zpos m) (Z.to_pos (2 ^ (- e)))) in
      Some (if s then Qopp v else v)
  | _ => None
  end.

Definition div (a b : Z) : float := PrimFloat.div (of_Z a) (of_Z b).

(** [(c / t) * 100 * 10] as the route evaluates it. *)
Definition scaled_ratio (c t : Z) : float :=
  PrimFloat.mul (PrimFloat.mul (div c t) (of_Z 100)) (of_Z 10).

Definition same (f : float) (x : Q) : bool :=
  match to_Q f with
  | Some y => Qeq_bool x y
  | None => false
  end.

Fixpoint upto (n : nat) : list Z :=
  match n with
  | O => [0]
  | S k => upto k ++ [Z.of_nat n]
  end.

(** [RN] gives the kernel's doubles for [(c / t) * 100 * 10] with
    [0 <= c <= t <= n], [1 <= t], and for [m / 10] with [0 <= m <= 1000]. *)
Definition agrees_upto (n : nat) : bool :=
  forallb (fun t =>
    (t =? 0) ||
    forallb (fun c =>
      same (scaled_ratio c t)
           (js_mul (js_mul (js_div (inject_Z c) (inject_Z t)) 100) 10))
      (upto (Z.to_nat t)))
    (upto n)
  && forallb (fun m => same (div m 10) (js_div (inject_Z m) 10)) (upto 1000).
End Binary64.

(* ------------------------------------------------------------------ *)
(** ** Timestamps                                                      *)

(** The time value of a [Date]: milliseconds since the epoch, or [None]
    for NaN (an "Invalid Date"). *)
Definition Date := option Z.

(** [a > b] on dates compares the time values; with NaN it is false. *)
Definition date_gt (a b : Date) : bool :=
  match a, b with
  | Some x, Some y => y <? x
  | _, _ => false
  end.

(** A parser for the date-time string format of ECMAScript with an
    explicit zone, [YYYY-MM-DDTHH:mm:ss(.f+)?(Z|+HH:mm|-HH:mm)], used for
    the concrete scenarios.  The aggregation itself is stated for any
    parser.  Every other string is unparseable here. *)
Module IsoDate.
Definition digit (c : ascii) : option Z :=
  let n := Z.of_nat (nat_of_ascii c) in
  if (48 <=? n) && (n <=? 57) then Some (n - 48) else None.

Fixpoint number (cs : list ascii) (acc : Z) : option Z :=
  match cs with
  | [] => Some acc
  | c :: rest =>
      match digit c with
      | Some d => number rest (10 * acc + d)
      | None => None
      end
  end.

Definition field (s : string) (start len : nat) : option Z :=
  let part := list_ascii_of_string (substring start len s) in
  if Nat.eqb (List.length part) len then number part 0 else None.

Definition char_at (s : string) (i : nat) (c : ascii) : bool :=
  match String.get i s with
  | Some c' => Ascii.eqb c c'
  | None => false
  end.

Definition days_from_civil (y m d : Z) : Z :=
  let y' := if m <=? 2 then y - 1 else y in
  let era := y' / 400 in
  let yoe := y' - era * 400 in
  let mp := (m + 9) mod 12 in
  let doy := (153 * mp + 2) / 5 + d - 1 in
  let doe := yoe * 365 + yoe / 4 - yoe / 100 + doy in
  era * 146097 + doe - 719468.

Definition is_leap (y : Z) : bool :=
  ((y mod 4 =? 0) && negb (y mod 100 =? 0)) || (y mod 400 =? 0).

Definition days_in_month (y m : Z) : Z :=
  if m =? 2 then (if is_leap y then 29 else 28)
  else if (m =? 4) || (m =? 6) || (m =? 9) || (m =? 11) then 30 else 31.

(** Leading fraction digits: the milliseconds they denote and the rest. *)
Fixpoint fraction (cs : list ascii) (pos : nat) (acc : Z) : Z * list ascii :=
  match cs with
  | c :: rest =>
      match digit c with
      | Some d =>
          fraction rest (S pos)
            (match pos with
             | 0%nat => acc + 100 * d
             | 1%nat => acc + 10 * d
             | 2%nat => acc + d
             | _ => acc
             end)
      | None => (acc, cs)
      end
  | [] => (acc, [])
  end.

(** The zone suffix as an offset in minutes east of UTC. *)
Definition zone (cs : list ascii) : option Z :=
  match cs with
  | ["Z"%char] => Some 0
  | [sg; h1; h2; ":"%char; m1; m2] =>
      match number [h1; h2] 0, number [m1; m2] 0 with
      | Some h, Some m =>
          if (h <=? 23) && (m <=? 59) then
            if Ascii.eqb sg "+"%char then Some (h * 60 + m)
            else if Ascii.eqb sg "-"%char then Some (- (h * 60 + m))
            else None
          else None
      | _, _ => None
      end
  | _ => None
  end.

Definition tail (s : string) : option (Z * Z) :=
  let cs := list_ascii_of_string (substring 19 (String.length s - 19) s) in
  match cs with
  | "."%char :: (d :: _) as ds =>
      match digit d with
      | Some _ =>
          let '(ms, rest) := fraction ds 0 0 in
          option_map (fun z => (ms, z)) (zone rest)
      | None => None
      end
  | _ => option_map (fun z => (0, z)) (zone cs)
  end.

Definition parse (s : string) : Date :=
  match field s 0 4, field s 5 2, field s 8 2,
        field s 11 2, field s 14 2, field s 17 2, tail s with
  | Some y, Some mo, Some d, Some h, Some mi, Some sec, Some (ms, off) =>
      if char_at s 4 "-" && char_at s 7 "-" && char_at s 10 "T"
         && char_at s 13 ":" && char_at s 16 ":"
         && (1 <=? mo) && (mo <=? 12) && (1 <=? d) && (d <=? days_in_month y mo)
         && (h <=? 23) && (mi <=? 59) && (sec <=? 59)
      then Some ((((days_from_civil y mo d * 24 + h) * 60 + mi - off) * 60 + sec)
                 * 1000 + ms)
      else None
  | _, _, _, _, _, _, _ => None
  end.
End IsoDate.

(* ------------------------------------------------------------------ *)
(** ** Rows of the plugin dataset                                      *)

(** A row of [practice_history], with the columns the route selects. *)
Module Practice.
Record t : Type := mk {
  id : Id;
  correct : bool;
  response_time_ms : option Z;
  created_at : string;
  module_id : option Id;
  topic_id : option Id;
  question_id : option Id;
  question_type : option string;
  reference_question_id : option Id
}.
End Practice.

(** A row of [questions_pool]. *)
Module Question.
Record t : Type := mk {
  id : Id;
  ny_standards_codes : option (list string);
  module_id : option Id;
  topic_id : option Id
}.
End Question.

(** The object kept in [masteryMap] for one standard code. *)
Module Acc.
Record t : Type := mk {
  standard_code : string;
  module_id : option Id;
  topic_id : option Id;
  total_attempts : Z;
  correct_count : Z;
  incorrect_count : Z;
  response_times : list Z;
  last_attempted : string
}.
End Acc.

(** An element of [masteryData], the payload of the mastery route. *)
Module Mastery.
Record t : Type := mk {
  standard_code : string;
  module_id : option Id;
  topic_id : option Id;
  total_attempts : Z;
  correct_count : Z;
  incorrect_count : Z;
  mastery_percentage : Q;
  avg_response_time_ms : option Z;
  last_attempted : string
}.
End Mastery.

(* ------------------------------------------------------------------ *)
(** ** The mastery aggregation ([math.routes.ts], lines 164-243)       *)

Section Aggregation.
(** [Date.parse] of the runtime. *)
Variable Date_parse : string -> Date.

Definition new_Date (s : string) : Date := Date_parse s.

Definition questionsMap_of (questions : list Question.t) : JSMap.t Id Question.t :=
  JSMap.of_entries Id_eqb (map (fun q => (Question.id q, q)) questions).

(** [practice.question_type === 'saved' ? practice.question_id
     : practice.reference_question_id] *)
Definition questionId (practice : Practice.t) : option Id :=
  match Practice.question_type practice with
  | Some ty =>
      if String.eqb ty "saved" then Practice.question_id practice
      else Practice.reference_question_id practice
  | None => Practice.reference_question_id practice
  end.

(** [questionId ? questionsMap.get(questionId) : null] *)
Definition question_of (questionsMap : JSMap.t Id Question.t)
    (practice : Practice.t) : option Question.t :=
  match questionId practice with
  | Some qid =>
      if truthy_id (Some qid) then JSMap.get Id_eqb questionsMap qid else None
  | None => None
  end.

(** The object stored for a code seen for the first time. *)
Definition new_mastery (standardCode : string) (practice : Practice.t)
    (question : Question.t) : Acc.t :=
  {| Acc.standard_code := standardCode;
     Acc.module_id := or_id (Practice.module_id practice) (Question.module_id question);
     Acc.topic_id := or_id (Practice.topic_id practice) (Question.topic_id question);
     Acc.total_attempts := 0;
     Acc.correct_count := 0;
     Acc.incorrect_count := 0;
     Acc.response_times := [];
     Acc.last_attempted := Practice.created_at practice |}.

(** The updates made to the stored object for one observation. *)
Definition record_attempt (practice : Practice.t) (mastery : Acc.t) : Acc.t :=
  {| Acc.standard_code := Acc.standard_code mastery;
     Acc.module_id := Acc.module_id mastery;
     Acc.topic_id := Acc.topic_id mastery;
     Acc.total_attempts := Acc.total_attempts mastery + 1;
     Acc.correct_count :=
       if Practice.correct practice then Acc.correct_count mastery + 1
       else Acc.correct_count mastery;
     Acc.incorrect_count :=
       if Practice.correct practice then Acc.incorrect_count mastery
       else Acc.incorrect_count mastery + 1;
     Acc.response_times :=
       match Practice.response_time_ms practice with
       | Some ms =>
           if truthy_num (Some ms) then Acc.response_times mastery ++ [ms]
           else Acc.response_times mastery
       | None => Acc.response_times mastery
       end;
     Acc.last_attempted :=
       if date_gt (new_Date (Practice.created_at practice))
                  (new_Date (Acc.last_attempted mastery))
       then Practice.created_at practice
       else Acc.last_attempted mastery |}.

(** The body of [question.ny_standards_codes.forEach]. *)
Definition process_code (practice : Practice.t) (question : Question.t)
    (masteryMap : JSMap.t string Acc.t) (standardCode : string)
    : JSMap.t string Acc.t :=
  let masteryMap :=
    if JSMap.has String.eqb masteryMap standardCode then masteryMap
    else JSMap.set String.eqb masteryMap standardCode
           (new_mastery standardCode practice question) in
  match JSMap.get String.eqb masteryMap standardCode with
  | Some mastery =>
      JSMap.set String.eqb masteryMap standardCode (record_attempt practice mastery)
  | None => masteryMap
  end.

(** The body of [practiceHistory.forEach]. *)
Definition process_practice (questionsMap : JSMap.t Id Question.t)
    (masteryMap : JSMap.t string Acc.t) (practice : Practice.t)
    : JSMap.t string Acc.t :=
  match question_of questionsMap practice with
  | None => masteryMap
  | Some question =>
      match Question.ny_standards_codes question with
      | None => masteryMap
      | Some codes => fold_left (process_code practice question) codes masteryMap
      end
  end.

Definition masteryMap_of (practiceHistory : list Practice.t)
    (questions : list Question.t) : JSMap.t string Acc.t :=
  fold_left (process_practice (questionsMap_of questions)) practiceHistory
    (JSMap.empty string Acc.t).

(** [Math.round((correct / total) * 100 * 10) / 10], or [0] without
    attempts. *)
Definition percentage (correct_count total_attempts : Z) : Q :=
  if 0 <? total_attempts
  then js_div
         (inject_Z (Math_round
            (js_mul (js_mul (js_div (inject_Z correct_count) (inject_Z total_attempts))
                            100) 10)))
         10
  else 0%Q.

(** [Math.round(times.reduce((a, b) => a + b, 0) / times.length)], or
    [null] for an empty list. *)
Definition average (response_times : list Z) : option Z :=
  if (0 <? List.length response_times)%nat
  then Some (Math_round
               (js_div (inject_Z (fold_left Z.add response_times 0))
                       (inject_Z (Z.of_nat (List.length response_times)))))
  else None.

Definition finalize (mastery : Acc.t) : Mastery.t :=
  {| Mastery.standard_code := Acc.standard_code mastery;
     Mastery.module_id := Acc.module_id mastery;
     Mastery.topic_id := Acc.topic_id mastery;
     Mastery.total_attempts := Acc.total_attempts mastery;
     Mastery.correct_count := Acc.correct_count mastery;
     Mastery.incorrect_count := Acc.incorrect_count mastery;
     Mastery.mastery_percentage :=
       percentage (Acc.correct_count mastery) (Acc.total_attempts mastery);
     Mastery.avg_response_time_ms := average (Acc.response_times mastery);
     Mastery.last_attempted := Acc.last_attempted mastery |}.

(** Lines 185-243: from the fetched rows to [masteryData]. *)
Definition computeMastery (practiceHistory : list Practice.t)
    (questions : list Question.t) : list Mastery.t :=
  map finalize (JSMap.values (masteryMap_of practiceHistory questions)).
End Aggregation.



(* ------------------------------------------------------------------ *)
(** ** The query gateway                                               *)

(** What a query resolves to: [{ data, error }]. *)
Module Response.
Record t (A : Type) : Type := mk {
  data : option A;
  error : option string
}.
End Response.

(** The store behind the gateway is a table of rows; the three filters
    the routes use are written over it the way the client library
    documents them: [.in] keeps the rows whose id is in the list,
    [.eq(...).single()] resolves to the row when exactly one matches and
    to [data: null] with an error otherwise. *)
Module Gateway.
Section Table.
Variable Row : Type.
Variable row_id : Row -> Id.

Definition matches (key : option Id) (row : Row) : bool :=
  match key with
  | Some k => Id_eqb (row_id row) k
  | None => false
  end.

Definition select_in (table : list Row) (ids : list (option Id))
    : Response.t (list Row) :=
  {| Response.data :=
       Some (filter (fun row => existsb (fun key => matches key row) ids) table);
     Response.error := None |}.

Definition select_eq_single (table : list Row) (key : option Id)
    : Response.t Row :=
  match filter (matches key) table with
  | [row] => {| Response.data := Some row; Response.error := None |}
  | _ => {| Response.data := None;
            Response.error := Some "JSON object requested, multiple (or no) rows returned"%string |}
  end.
End Table.
End Gateway.

(** [[...new Set(xs)]]: the distinct elements in order of first
    occurrence. *)
Definition unique (A : Type) (eqb : A -> A -> bool) (xs : list A) : list A :=
  fold_left (fun seen x => if existsb (eqb x) seen then seen else seen ++ [x]) xs [].

Definition option_Id_eqb (a b : option Id) : bool :=
  match a, b with
  | Some x, Some y => Id_eqb x y
  | None, None => true
  | _, _ => false
  end.

(* ------------------------------------------------------------------ *)
(** ** The mastery route around the aggregation (lines 156-185)        *)

Definition savedQuestionIds (practiceHistory : list Practice.t) : list (option Id) :=
  map Practice.question_id
    (filter (fun p =>
       match Practice.question_type p with
       | Some ty => String.eqb ty "saved" && truthy_id (Practice.question_id p)
       | None => false
       end) practiceHistory).

Definition referenceQuestionIds (practiceHistory : list Practice.t) : list (option Id) :=
  map Practice.reference_question_id
    (filter (fun p =>
       match Practice.question_type p with
       | Some ty => String.eqb ty "on_the_fly" && truthy_id (Practice.reference_question_id p)
       | None => false
       end) practiceHistory).

Definition allQuestionIds (practiceHistory : list Practice.t) : list (option Id) :=
  unique option_Id_eqb (savedQuestionIds practiceHistory ++ referenceQuestionIds practiceHistory).

(** The payload of the route once the user is found and both queries
    succeed: [questions_pool] is the table the catalog is fetched from. *)
Definition mastery_route (Date_parse : string -> Date)
    (questions_pool : list Question.t) (practiceHistory : list Practice.t)
    : list Mastery.t :=
  match practiceHistory with
  | [] => []
  | _ =>
      match Response.data
              (Gateway.select_in Question.id questions_pool
                 (allQuestionIds practiceHistory)) with
      | Some questions => computeMastery Date_parse practiceHistory questions
      | None => computeMastery Date_parse practiceHistory []
      end
  end.

(* ------------------------------------------------------------------ *)
(** ** Relation enrichment ([math.routes.ts], lines 11-35 and 86-98)   *)

Module Standard.
Record t : Type := mk {
  id : Id;
  standard_code : string;
  description : string;
  module_id : option Id;
  topic_id : option Id;
  created_at : string
}.
End Standard.

Module CModule.
Record t : Type := mk {
  id : Id;
  name : string;
  description : string;
  display_order : Z
}.
End CModule.

Module Topic.
Record t : Type := mk {
  id : Id;
  name : string
}.
End Topic.

Module Enriched.
Record t : Type := mk {
  id : Id;
  standard_code : string;
  description : string;
  created_at : string;
  module : option CModule.t;
  topic : option Topic.t
}.
End Enriched.

(** [new Map(response.data?.map((r) => [r.id, r]) || [])] *)
Definition lookup_of (Row : Type) (row_id : Row -> Id)
    (response : Response.t (list Row)) : JSMap.t Id Row :=
  JSMap.of_entries Id_eqb
    (match Response.data response with
     | Some rows => map (fun r => (row_id r, r)) rows
     | None => []
     end).

(** [map.get(key) || null] for a nullable key. *)
Definition get_or_null (Row : Type) (m : JSMap.t Id Row) (key : option Id)
    : option Row :=
  match key with
  | Some k => JSMap.get Id_eqb m k
  | None => None
  end.

(** The last step of [enrichStandardsWithRelations], on the two
    responses of the gateway. *)
Definition enrich_with (modulesResponse : Response.t (list CModule.t))
    (topicsResponse : Response.t (list Topic.t))
    (standards : list Standard.t) : list Enriched.t :=
  let modulesMap := lookup_of CModule.id modulesResponse in
  let topicsMap := lookup_of Topic.id topicsResponse in
  map (fun standard =>
         {| Enriched.id := Standard.id standard;
            Enriched.standard_code := Standard.standard_code standard;
            Enriched.description := Standard.description standard;
            Enriched.created_at := Standard.created_at standard;
            Enriched.module := get_or_null modulesMap (Standard.module_id standard);
            Enriched.topic := get_or_null topicsMap (Standard.topic_id standard) |})
      standards.

(** The batched variant over the tables of the store. *)
Definition enrichStandardsWithRelations (modules : list CModule.t)
    (topics : list Topic.t) (standards : list Standard.t) : list Enriched.t :=
  let moduleIds := unique option_Id_eqb (map Standard.module_id standards) in
  let topicIds := unique option_Id_eqb (map Standard.topic_id standards) in
  enrich_with (Gateway.select_in CModule.id modules moduleIds)
              (Gateway.select_in Topic.id topics topicIds)
              standards.

(** The single-record variant, on the two responses of the gateway:
    [module: moduleResponse.data || null]. *)
Definition enrichedStandard_with (moduleResponse : Response.t CModule.t)
    (topicResponse : Response.t Topic.t) (standard : Standard.t) : Enriched.t :=
  {| Enriched.id := Standard.id standard;
     Enriched.standard_code := Standard.standard_code standard;
     Enriched.description := Standard.description standard;
     Enriched.created_at := Standard.created_at standard;
     Enriched.module := Response.data moduleResponse;
     Enriched.topic := Response.data topicResponse |}.

Definition enrichedStandard (modules : list CModule.t) (topics : list Topic.t)
    (standard : Standard.t) : Enriched.t :=
  enrichedStandard_with
    (Gateway.select_eq_single CModule.id modules (Standard.module_id standard))
    (Gateway.select_eq_single Topic.id topics (Standard.topic_id standard))
    standard.

(* ------------------------------------------------------------------ *)
(** ** Configuration read at start-up ([index.ts], lines 11-20)        *)

Module Config.
(** [process.env]: a variable is a string or is not set. *)
Definition env := string -> option string.

(** [process.env.X || fallback] on strings: unset and empty are falsy. *)
Definition env_or (e : env) (name fallback : string) : string :=
  match e name with
  | Some v => if String.eqb v "" then fallback else v
  | None => fallback
  end.

(** [PORT] is the string of the environment or the number 3000. *)
Inductive port : Type :=
| PortString (s : string)
| PortNumber (n : Z).

Definition PORT (e : env) : port :=
  match e "PORT"%string with
  | Some v => if String.eqb v "" then PortNumber 3000 else PortString v
  | None => PortNumber 3000
  end.

Definition API_PREFIX (e : env) : string := env_or e "API_PREFIX" "/api/v1".

Record cors_options : Type := mk_cors {
  origin : string;
  credentials : bool
}.

Definition cors (e : env) : cors_options :=
  {| origin := "http://localhost:8080"; credentials := true |}.

(** [expiresIn] of the token route. *)
Definition expiresIn (e : env) : string := env_or e "JWT_EXPIRES_IN" "24h".
End Config.

(* ------------------------------------------------------------------ *)
(** ** Concrete inputs for the scenarios                                *)

Module Scenario.
Definition question : Question.t :=
  {| Question.id := IdStr "q-1";
     Question.ny_standards_codes := Some ["A.1"; "A.2"]%string;
     Question.module_id := Some (IdNum 3);
     Question.topic_id := Some (IdNum 7) |}.

Definition attempt (n : Z) (ok : bool) (ms : Z) (at_ : string) : Practice.t :=
  {| Practice.id := IdNum n;
     Practice.correct := ok;
     Practice.response_time_ms := Some ms;
     Practice.created_at := at_;
     Practice.module_id := None;
     Practice.topic_id := None;
     Practice.question_id := Some (IdStr "q-1");
     Practice.question_type := Some "saved"%string;
     Practice.reference_question_id := None |}.

(** The figures of a record that the scenario fixes. *)
Definition figures (r : Mastery.t) : string * Z * Z * Z * Q * option Z :=
  (Mastery.standard_code r, Mastery.total_attempts r, Mastery.correct_count r,
   Mastery.incorrect_count r, Mastery.mastery_percentage r,
   Mastery.avg_response_time_ms r).

(** The same question with its code listed twice, and with one code. *)
Definition question_twice : Question.t :=
  {| Question.id := IdStr "q-1";
     Question.ny_standards_codes := Some ["A.1"; "A.1"]%string;
     Question.module_id := Some (IdNum 3);
     Question.topic_id := Some (IdNum 7) |}.

Definition question_one : Question.t :=
  {| Question.id := IdStr "q-1";
     Question.ny_standards_codes := Some ["A.1"]%string;
     Question.module_id := Some (IdNum 3);
     Question.topic_id := Some (IdNum 7) |}.

(** 23 correct attempts followed by 57 incorrect ones. *)
Definition history_23_of_80 : list Practice.t :=
  repeat (attempt 1 true 500 "2024-03-01T09:00:00Z") 23
  ++ repeat (attempt 2 false 700 "2024-03-01T09:05:00Z") 57.

(** An attempt that refers to the question through
    [reference_question_id], with a question type of one's choice. *)
Definition referring (n : Z) (ty : string) (at_ : string) : Practice.t :=
  {| Practice.id := IdNum n;
     Practice.correct := true;
     Practice.response_time_ms := Some 400;
     Practice.created_at := at_;
     Practice.module_id := None;
     Practice.topic_id := None;
     Practice.question_id := None;
     Practice.question_type := Some ty;
     Practice.reference_question_id := Some (IdStr "q-1") |}.

(** Two attempts whose timestamps order differently as strings and as
    instants: the first is the earlier instant and the greater string. *)
Definition history_two_zones : list Practice.t :=
  [attempt 1 true 500 "2024-01-01T00:00:00+02:00";
   attempt 2 false 700 "2023-12-31T23:00:00+00:00"].

(** The doubles nearest to 28.7 and to 28.8. *)
Definition double_28_7 : Q := 8078331831595827 # 281474976710656.
Definition double_28_8 : Q := 8106479329266893 # 281474976710656.

Definition record_23_of_80 : Mastery.t :=
  {| Mastery.standard_code := "A.1";
     Mastery.module_id := Some (IdNum 3);
     Mastery.topic_id := Some (IdNum 7);
     Mastery.total_attempts := 80;
     Mastery.correct_count := 23;
     Mastery.incorrect_count := 57;
     Mastery.mastery_percentage := double_28_7;
     Mastery.avg_response_time_ms := Some 643;
     Mastery.last_attempted := "2024-03-01T09:05:00Z" |}.

Definition record_two_zones : Mastery.t :=
  {| Mastery.standard_code := "A.1";
     Mastery.module_id := Some (IdNum 3);
     Mastery.topic_id := Some (IdNum 7);
     Mastery.total_attempts := 2;
     Mastery.correct_count := 1;
     Mastery.incorrect_count := 1;
     Mastery.mastery_percentage := 50;
     Mastery.avg_response_time_ms := Some 600;
     Mastery.last_attempted := "2023-12-31T23:00:00+00:00" |}.

Definition modules : list CModule.t :=
  [{| CModule.id := IdNum 3; CModule.name := "Fractions";
      CModule.description := "Operations on fractions"; CModule.display_order := 1 |}].

Definition topics : list Topic.t :=
  [{| Topic.id := IdNum 7; Topic.name := "Adding fractions" |}].

(** A standard whose module is not in the store and whose topic is. *)
Definition orphan : Standard.t :=
  {| Standard.id := IdNum 41;
     Standard.standard_code := "A.1";
     Standard.description := "Add fractions with unlike denominators";
     Standard.module_id := Some (IdNum 99);
     Standard.topic_id := Some (IdNum 7);
     Standard.created_at := "2024-03-01T09:00:00Z" |}.

Definition environment : Config.env :=
  fun name =>
    if String.eqb name "PORT" then Some "8081"%string
    else if String.eqb name "CORS_ORIGIN" then Some "https://dashboard.example.org"%string
    else None.
End Scenario.

(* ------------------------------------------------------------------ *)
(** ** The aggregation seen from one standard code                     *)

Section Observations.
Variable Date_parse : string -> Date.
Variable questionsMap : JSMap.t Id Question.t.

(** The code list of the question an attempt resolves to; empty when the
    attempt is skipped. *)
Definition codes_of (practice : Practice.t) : list string :=
  match question_of questionsMap practice with
  | Some question =>
      match Question.ny_standards_codes question with
      | Some codes => codes
      | None => []
      end
  | None => []
  end.

(** How often [forEach] visits [code] for this attempt. *)
Definition occurrences (code : string) (practice : Practice.t) : nat :=
  count_occ string_dec (codes_of practice) code.

Definition contributes (code : string) (practice : Practice.t) : bool :=
  existsb (String.eqb code) (codes_of practice).

(** One visit of [code] by [forEach], on the object stored so far. *)
Definition observe (code : string) (practice : Practice.t)
    (question : Question.t) (stored : option Acc.t) : Acc.t :=
  record_attempt Date_parse practice
    (match stored with
     | Some mastery => mastery
     | None => new_mastery code practice question
     end).

(** All visits of [code] for one attempt. *)
Definition step (code : string) (stored : option Acc.t)
    (practice : Practice.t) : option Acc.t :=
  match question_of questionsMap practice with
  | Some question =>
      match Question.ny_standards_codes question with
      | Some codes =>
          Nat.iter (count_occ string_dec codes code)
            (fun o => Some (observe code practice question o)) stored
      | None => stored
      end
  | None => stored
  end.

Definition acc_of (code : string) (practiceHistory : list Practice.t)
    : option Acc.t :=
  fold_left (step code) practiceHistory None.

(** The latency an attempt adds at each visit, if any. *)
Definition latency_of (practice : Practice.t) : list Z :=
  match Practice.response_time_ms practice with
  | Some ms => if ms =? 0 then [] else [ms]
  | None => []
  end.

(** The latencies collected for [code], in order. *)
Definition latencies (code : string) (practiceHistory : list Practice.t) : list Z :=
  flat_map (fun p => List.concat (repeat (latency_of p) (occurrences code p)))
    practiceHistory.

(** How often [code] was visited over a history. *)
Definition visits (code : string) (practiceHistory : list Practice.t) : Z :=
  fold_right (fun p n => Z.of_nat (occurrences code p) + n) 0 practiceHistory.
(** The timestamps of the attempts that contribute to [code] all parse. *)
Definition well_formed (code : string) (ps : list Practice.t) : Prop :=
  forall p, In p ps -> contributes code p = true ->
    Date_parse (Practice.created_at p) <> None.

(** [p] is a latest attempt among those of [ps] that contribute to [code]. *)
Definition latest (code : string) (ps : list Practice.t) (p : Practice.t) : Prop :=
  In p ps /\ contributes code p = true
  /\ exists t, Date_parse (Practice.created_at p) = Some t
     /\ forall p', In p' ps -> contributes code p' = true ->
          exists t', Date_parse (Practice.created_at p') = Some t' /\ t' <= t.

End Observations.

(** The figures of a stored object, 0 and the empty list when there is
    none. *)
Definition o_total (o : option Acc.t) : Z :=
  match o with Some a => Acc.total_attempts a | None => 0 end.
Definition o_correct (o : option Acc.t) : Z :=
  match o with Some a => Acc.correct_count a | None => 0 end.
Definition o_incorrect (o : option Acc.t) : Z :=
  match o with Some a => Acc.incorrect_count a | None => 0 end.
Definition o_times (o : option Acc.t) : list Z :=
  match o with Some a => Acc.response_times a | None => [] end.


Definition total_of (m : JSMap.t string Acc.t) (code : string) : Z :=
  match JSMap.get String.eqb m code with
  | Some a => Acc.total_attempts a
  | None => 0
  end.

Definition correct_of (m : JSMap.t string Acc.t) (code : string) : Z :=
  match JSMap.get String.eqb m code with
  | Some a => Acc.correct_count a
  | None => 0
  end.

Definition incorrect_of (m : JSMap.t string Acc.t) (code : string) : Z :=
  match JSMap.get String.eqb m code with
  | Some a => Acc.incorrect_count a
  | None => 0
  end.

Definition times_of (m : JSMap.t string Acc.t) (code : string) : list Z :=
  match JSMap.get String.eqb m code with
  | Some a => Acc.response_times a
  | None => []
  end.

Definition sum (xs : list Z) : Z := fold_left Z.add xs 0.

(** [n] is the integer nearest to [s / l], the upper one on a tie. *)
Definition nearest_integer (n s l : Z) : Prop :=
  (2 * n - 1) * l <= 2 * s < (2 * n + 1) * l.

(** The percentage as the specification words it:
    [round(correct / total * 1000) / 10], in exact arithmetic with the
    last division rounded to a double, and in double arithmetic
    throughout. *)
Definition spec_percentage_exact (correct_count total_attempts : Z) : Q :=
  js_div (inject_Z (Math_round
            (inject_Z correct_count / inject_Z total_attempts * 1000)%Q)) 10.

Definition spec_percentage_double (correct_count total_attempts : Z) : Q :=
  js_div (inject_Z (Math_round
            (js_mul (js_div (inject_Z correct_count) (inject_Z total_attempts)) 1000)))
         10.

(** A stored object and a record of the payload without their
    [last_attempted], and a map of such objects. *)
Definition strip (a : Acc.t) : Acc.t :=
  {| Acc.standard_code := Acc.standard_code a;
     Acc.module_id := Acc.module_id a;
     Acc.topic_id := Acc.topic_id a;
     Acc.total_attempts := Acc.total_attempts a;
     Acc.correct_count := Acc.correct_count a;
     Acc.incorrect_count := Acc.incorrect_count a;
     Acc.response_times := Acc.response_times a;
     Acc.last_attempted := "" |}.

Definition erase (m : JSMap.t string Acc.t) : JSMap.t string Acc.t :=
  map (fun kv => (fst kv, strip (snd kv))) m.

(** A record of the payload without its [last_attempted]. *)
Definition forget_last (r : Mastery.t) : Mastery.t :=
  {| Mastery.standard_code := Mastery.standard_code r;
     Mastery.module_id := Mastery.module_id r;
     Mastery.topic_id := Mastery.topic_id r;
     Mastery.total_attempts := Mastery.total_attempts r;
     Mastery.correct_count := Mastery.correct_count r;
     Mastery.incorrect_count := Mastery.incorrect_count r;
     Mastery.mastery_percentage := Mastery.mastery_percentage r;
     Mastery.avg_response_time_ms := Mastery.avg_response_time_ms r;
     Mastery.last_attempted := "" |}.

(** No row of [table] has the identifier [key]. *)
Definition misses (Row : Type) (row_id : Row -> Id) (table : list Row)
    (key : option Id) : Prop :=
  forall row, In row table -> Gateway.matches row_id key row = false.


(* ------------------------------------------------------------------ *)
(** ** Quantities read off a history                                   *)

(** The visits of [code] by the attempts of a history that satisfy [f]. *)
Definition visits_if (questionsMap : JSMap.t Id Question.t)
    (f : Practice.t -> bool) (code : string) (ps : list Practice.t) : Z :=
  fold_right
    (fun p n => (if f p then Z.of_nat (occurrences questionsMap code p) else 0) + n)
    0 ps.

(** The first attempt of a history that contributes to [code]. *)
Definition first_contributing (questionsMap : JSMap.t Id Question.t)
    (code : string) (ps : list Practice.t) : option Practice.t :=
  find (contributes questionsMap code) ps.

(** The attempts counted over the whole payload. *)
Definition sum_totals (payload : list Mastery.t) : Z :=
  fold_right (fun r n => Mastery.total_attempts r + n) 0 payload.

(** The lengths of the code lists the attempts of a history resolve to. *)
Definition observations (questionsMap : JSMap.t Id Question.t)
    (ps : list Practice.t) : Z :=
  fold_right (fun p n => Z.of_nat (List.length (codes_of questionsMap p)) + n) 0 ps.

(** The step of [unique]. *)
Definition see (A : Type) (eqb : A -> A -> bool) (seen : list A) (x : A) : list A :=
  if existsb (eqb x) seen then seen else seen ++ [x].

(** The question type of an attempt is one of the two the route names. *)
Definition typed (p : Practice.t) : Prop :=
  Practice.question_type p = Some "saved"%string
  \/ Practice.question_type p = Some "on_the_fly"%string.

(* ------------------------------------------------------------------ *)
(** ** The token route ([auth.routes.ts])                              *)

Module Auth.
(** [s.split(sep)] for a separator of one character. *)
Fixpoint split (sep : ascii) (s : string) : list string :=
  match s with
  | EmptyString => [EmptyString]
  | String c rest =>
      if Ascii.eqb c sep then EmptyString :: split sep rest
      else match split sep rest with
           | piece :: pieces => String c piece :: pieces
           | [] => [String c EmptyString]
           end
  end.

(** Truthiness of a string that may be undefined. *)
Definition truthy (o : option string) : bool :=
  match o with
  | Some s => negb (String.eqb s "")
  | None => false
  end.

(** [authHeader && authHeader.split(' ')[1]] *)
Definition supabaseToken (authHeader : option string) : option string :=
  if truthy authHeader then
    match authHeader with
    | Some h => nth_error (split " " h) 1
    | None => None
    end
  else authHeader.

(** The user the identity service knows. *)
Record user : Type := mk_user {
  user_id : string;
  user_email : option string
}.

(** What [auth.getUser] resolves to: [{ data: { user }, error }]. *)
Record user_response : Type := mk_user_response {
  data_user : option user;
  error : option string
}.

(** A call that resolves to a value or throws. *)
Inductive settled (A : Type) : Type :=
| Resolved (a : A)
| Threw.
Arguments Threw {A}.

(** The argument of [generateToken]. *)
Record token_payload : Type := mk_payload {
  userId : string;
  email : string
}.

Inductive response : Type :=
| Status401 (error : string)
| Status500 (error : string)
| Status200 (token expiresIn : string) (id : string) (email : option string).

Section Route.
(** The identity service and the token signer, which are not part of
    this file of the repository. *)
Variable getUser : string -> settled user_response.
Variable generateToken : token_payload -> settled string.
Variable env : Config.env.

(** The handler of [POST /token]; an exception anywhere ends in the
    [catch] branch. *)
Definition token_route (authHeader : option string) : response :=
  let supabaseToken := supabaseToken authHeader in
  if negb (truthy supabaseToken) then Status401 "Supabase token required"
  else
    match supabaseToken with
    | None => Status401 "Supabase token required"
    | Some tok =>
        match getUser tok with
        | Threw => Status500 "Internal server error"
        | Resolved r =>
            match error r, data_user r with
            | None, Some u =>
                match generateToken
                        {| userId := user_id u;
                           email := match user_email u with
                                    | Some e => e
                                    | None => ""
                                    end |} with
                | Threw => Status500 "Internal server error"
                | Resolved apiToken =>
                    Status200 apiToken (Config.expiresIn env) (user_id u) (user_email u)
                end
            | _, _ => Status401 "Invalid Supabase token"
            end
        end
    end.
End Route.

(** No character of [s] is [c]. *)
Fixpoint free_of (c : ascii) (s : string) : bool :=
  match s with
  | EmptyString => true
  | String c' rest => negb (Ascii.eqb c' c) && free_of c rest
  end.
End Auth.

(* ------------------------------------------------------------------ *)
(** ** More concrete inputs                                            *)

Module Examples.

Definition history_correct : list Practice.t :=
  [Scenario.attempt 1 true 500 "2024-03-01T09:00:00Z"].

Definition record_correct : Mastery.t :=
  {| Mastery.standard_code := "A.1";
     Mastery.module_id := Some (IdNum 3);
     Mastery.topic_id := Some (IdNum 7);
     Mastery.total_attempts := 1;
     Mastery.correct_count := 1;
     Mastery.incorrect_count := 0;
     Mastery.mastery_percentage := 100;
     Mastery.avg_response_time_ms := Some 500;
     Mastery.last_attempted := "2024-03-01T09:00:00Z" |}.

Definition fractions : CModule.t :=
  {| CModule.id := IdNum 3; CModule.name := "Fractions";
     CModule.description := "Operations on fractions"; CModule.display_order := 1 |}.

(** A standard whose module and topic are in the store. *)
Definition placed : Standard.t :=
  {| Standard.id := IdNum 42;
     Standard.standard_code := "A.2";
     Standard.description := "Subtract fractions with unlike denominators";
     Standard.module_id := Some (IdNum 3);
     Standard.topic_id := Some (IdNum 7);
     Standard.created_at := "2024-03-01T09:00:00Z" |}.

Definition failed (A : Type) : Response.t A :=
  {| Response.data := None; Response.error := Some "connection refused"%string |}.

Definition alice : Auth.user :=
  {| Auth.user_id := "u-1"; Auth.user_email := Some "alice@example.org"%string |}.

(** An identity service that knows one token. *)
Definition identity (tok : string) : Auth.settled Auth.user_response :=
  if String.eqb tok "abc.def"
  then Auth.Resolved {| Auth.data_user := Some alice; Auth.error := None |}
  else Auth.Resolved {| Auth.data_user := None;
                        Auth.error := Some "invalid JWT"%string |}.

Definition signer (payload : Auth.token_payload) : Auth.settled string :=
  Auth.Resolved ("signed:" ++ Auth.userId payload)%string.
End Examples.

(* ================================================================== *)
(** * Properties                                                       *)

(* ------------------------------------------------------------------ *)
(** ** The association list behaves like a [Map]                       *)

Section JSMapFacts.
Variables K V : Type.
Variable eqb : K -> K -> bool.
Hypothesis eqb_eq : forall a b, eqb a b = true <-> a = b.

Let get := JSMap.get (V := V) eqb.
Let set := JSMap.set (V := V) eqb.

Lemma eqb_refl' : forall a, eqb a a = true.
Proof. intro a. apply eqb_eq. reflexivity. Qed.

Lemma eqb_neq : forall a b, a <> b -> eqb a b = false.
Proof.
  intros a b H. destruct (eqb a b) eqn:E; [|reflexivity].
  apply eqb_eq in E. contradiction.
Qed.

Lemma get_set_same : forall m k v, get (set m k v) k = Some v.
Proof.
  induction m as [|[k' v'] m IH]; intros k v; simpl.
  - rewrite eqb_refl'. reflexivity.
  - destruct (eqb k k') eqn:E; simpl; rewrite E; [reflexivity | apply IH].
Qed.

Lemma get_set_other : forall m k k' v, k <> k' -> get (set m k v) k' = get m k'.
Proof.
  induction m as [|[k0 v0] m IH]; intros k k' v Hne; simpl.
  - rewrite (eqb_neq (a := k') (b := k)); [reflexivity | congruence].
  - destruct (eqb k k0) eqn:E; simpl.
    + apply eqb_eq in E. subst k0.
      rewrite (eqb_neq (a := k') (b := k)); [reflexivity | congruence].
    + destruct (eqb k' k0); [reflexivity | apply IH; assumption].
Qed.

Lemma get_In_keys : forall m k v, get m k = Some v -> In k (JSMap.keys m).
Proof.
  induction m as [|[k' v'] m IH]; intros k v; simpl; [discriminate|].
  destruct (eqb k k') eqn:E.
  - apply eqb_eq in E. intros _. left. symmetry. exact E.
  - intro H. right. eapply IH; eassumption.
Qed.

Lemma get_None_not_In : forall m k, get m k = None -> ~ In k (JSMap.keys m).
Proof.
  induction m as [|[k' v'] m IH]; intros k; simpl; [tauto|].
  destruct (eqb k k') eqn:E; [discriminate|].
  intros H [Hk | Hk].
  - subst k'. rewrite eqb_refl' in E. discriminate.
  - eapply IH; eassumption.
Qed.

Lemma keys_set : forall m k v,
  JSMap.keys (set m k v) = if JSMap.has eqb m k then JSMap.keys m else JSMap.keys m ++ [k].
Proof.
  unfold JSMap.has.
  induction m as [|[k' v'] m IH]; intros k v; simpl; [reflexivity|].
  destruct (eqb k k') eqn:E; simpl; [reflexivity|].
  fold set. rewrite IH. fold get.
  destruct (get m k); reflexivity.
Qed.

Lemma NoDup_keys_set : forall m k v,
  NoDup (JSMap.keys m) -> NoDup (JSMap.keys (set m k v)).
Proof.
  intros m k v H. rewrite keys_set. unfold JSMap.has. fold get.
  destruct (get m k) eqn:E; [assumption|].
  apply NoDup_app; [assumption | repeat constructor; simpl; tauto |].
  intros x Hx [Hx' | []]. subst x.
  eapply get_None_not_In; eassumption.
Qed.

Lemma In_get : forall m k v,
  NoDup (JSMap.keys m) -> In (k, v) m -> get m k = Some v.
Proof.
  induction m as [|[k' v'] m IH]; intros k v Hnd Hin; simpl in *; [tauto|].
  inversion Hnd as [|? ? Hnotin Hnd']; subst.
  destruct Hin as [Heq | Hin].
  - inversion Heq; subst. rewrite eqb_refl'. reflexivity.
  - destruct (eqb k k') eqn:E.
    + apply eqb_eq in E. subst k'. exfalso. apply Hnotin.
      change k with (fst (k, v)). apply in_map. assumption.
    + apply IH; assumption.
Qed.

Lemma set_set : forall m k v v', set (set m k v) k v' = set m k v'.
Proof.
  induction m as [|[k' v0] m IH]; intros k v v'; simpl.
  - rewrite eqb_refl'. reflexivity.
  - destruct (eqb k k') eqn:E; simpl; rewrite E; [reflexivity|].
    f_equal. apply IH.
Qed.

Lemma get_In : forall m k v, get m k = Some v -> In (k, v) m.
Proof.
  induction m as [|[k' v'] m IH]; intros k v; simpl; [discriminate|].
  destruct (eqb k k') eqn:E.
  - apply eqb_eq in E. subst k'. intro H. inversion H. left. reflexivity.
  - intro H. right. apply IH. assumption.
Qed.

Lemma In_values : forall m v,
  NoDup (JSMap.keys m) ->
  (In v (JSMap.values m) <-> exists k, get m k = Some v).
Proof.
  intros m v Hnd. unfold JSMap.values. rewrite in_map_iff. split.
  - intros [[k v'] [Hv Hin]]. simpl in Hv. subst v'.
    exists k. apply In_get; assumption.
  - intros [k Hk]. exists (k, v). split; [reflexivity | apply get_In; assumption].
Qed.
End JSMapFacts.

(* ------------------------------------------------------------------ *)
(** ** The map of accumulators, one code at a time                     *)

Section AggregationFacts.
Variable Date_parse : string -> Date.
Variable questionsMap : JSMap.t Id Question.t.

Local Notation "'sget'" := (@JSMap.get string Acc.t String.eqb).
Local Notation "'sset'" := (@JSMap.set string Acc.t String.eqb).

Lemma process_code_set : forall practice question m code,
  process_code Date_parse practice question m code
  = sset m code (observe Date_parse code practice question (sget m code)).
Proof.
  intros practice question m code. unfold process_code, JSMap.has, observe.
  destruct (sget m code) eqn:E.
  - rewrite E. reflexivity.
  - rewrite (get_set_same String.eqb String.eqb_eq).
    apply (set_set String.eqb String.eqb_eq).
Qed.

Lemma get_process_code_same : forall practice question m code,
  sget (process_code Date_parse practice question m code) code
  = Some (observe Date_parse code practice question (sget m code)).
Proof.
  intros. rewrite process_code_set. apply (get_set_same String.eqb String.eqb_eq).
Qed.

Lemma get_process_code_other : forall practice question m code code',
  code <> code' ->
  sget (process_code Date_parse practice question m code) code' = sget m code'.
Proof.
  intros. rewrite process_code_set. apply (get_set_other String.eqb String.eqb_eq). assumption.
Qed.

Lemma get_fold_codes : forall practice question codes m code,
  sget (fold_left (process_code Date_parse practice question) codes m) code
  = Nat.iter (count_occ string_dec codes code)
      (fun o => Some (observe Date_parse code practice question o)) (sget m code).
Proof.
  intros practice question codes. induction codes as [|c codes IH]; intros m code.
  - reflexivity.
  - simpl fold_left. rewrite IH. simpl count_occ.
    destruct (string_dec c code) as [-> | Hne].
    + rewrite Nat.iter_succ_r. rewrite get_process_code_same. reflexivity.
    + rewrite get_process_code_other by assumption. reflexivity.
Qed.

Lemma get_process_practice : forall m practice code,
  sget (process_practice Date_parse questionsMap m practice) code
  = step Date_parse questionsMap code (sget m code) practice.
Proof.
  intros m practice code. unfold process_practice, step.
  destruct (question_of questionsMap practice) as [question|]; [|reflexivity].
  destruct (Question.ny_standards_codes question) as [codes|]; [|reflexivity].
  apply get_fold_codes.
Qed.

Lemma get_fold_practice : forall practiceHistory m code,
  sget (fold_left (process_practice Date_parse questionsMap) practiceHistory m) code
  = fold_left (step Date_parse questionsMap code) practiceHistory (sget m code).
Proof.
  induction practiceHistory as [|p ps IH]; intros m code; simpl.
  - reflexivity.
  - rewrite IH, get_process_practice. reflexivity.
Qed.

Lemma NoDup_keys_fold_codes : forall practice question codes m,
  NoDup (JSMap.keys m) ->
  NoDup (JSMap.keys (fold_left (process_code Date_parse practice question) codes m)).
Proof.
  intros practice question codes. induction codes as [|c codes IH]; intros m H.
  - assumption.
  - simpl. apply IH. rewrite process_code_set.
    apply (NoDup_keys_set String.eqb String.eqb_eq). assumption.
Qed.

Lemma NoDup_keys_fold_practice : forall practiceHistory m,
  NoDup (JSMap.keys m) ->
  NoDup (JSMap.keys (fold_left (process_practice Date_parse questionsMap) practiceHistory m)).
Proof.
  induction practiceHistory as [|p ps IH]; intros m H; simpl.
  - assumption.
  - apply IH. unfold process_practice.
    destruct (question_of questionsMap p) as [question|]; [|assumption].
    destruct (Question.ny_standards_codes question) as [codes|]; [|assumption].
    apply NoDup_keys_fold_codes. assumption.
Qed.

(** Appending one attempt to the history is one more [step]. *)
Lemma acc_of_snoc : forall code practiceHistory practice,
  acc_of Date_parse questionsMap code (practiceHistory ++ [practice])
  = step Date_parse questionsMap code
      (acc_of Date_parse questionsMap code practiceHistory) practice.
Proof.
  intros. unfold acc_of. rewrite fold_left_app. reflexivity.
Qed.

(** A [step] visits the code as often as it occurs in the code list of
    the question the attempt resolves to. *)
Lemma step_occurrences : forall code stored practice,
  step Date_parse questionsMap code stored practice
  = match question_of questionsMap practice with
    | Some question =>
        Nat.iter (occurrences questionsMap code practice)
          (fun o => Some (observe Date_parse code practice question o)) stored
    | None => stored
    end.
Proof.
  intros code stored practice. unfold step, occurrences, codes_of.
  destruct (question_of questionsMap practice) as [question|]; [|reflexivity].
  destruct (Question.ny_standards_codes question); reflexivity.
Qed.

Lemma occurrences_contributes : forall code practice,
  contributes questionsMap code practice = true
  <-> (0 < occurrences questionsMap code practice)%nat.
Proof.
  intros code practice. unfold contributes, occurrences.
  rewrite existsb_exists. split.
  - intros [x [Hin Heq]]. apply String.eqb_eq in Heq. subst x.
    apply (count_occ_In string_dec). assumption.
  - intro Hpos. apply (count_occ_In string_dec) in Hpos.
    exists code. split; [assumption | apply String.eqb_refl].
Qed.

Lemma contributes_question : forall code practice,
  contributes questionsMap code practice = true ->
  exists question, question_of questionsMap practice = Some question.
Proof.
  intros code practice. unfold contributes, codes_of.
  destruct (question_of questionsMap practice) as [question|].
  - intros _. exists question. reflexivity.
  - simpl. discriminate.
Qed.

(** Induction over the history from its first attempt to its last: what
    holds of no stored object, of the first visit of a code, and is kept
    by every further visit, holds of [acc_of]. *)
Lemma acc_of_invariant :
  forall (code : string) (P : list Practice.t -> option Acc.t -> Prop),
    P [] None ->
    (forall ps p o, P ps o ->
       contributes questionsMap code p = false -> P (ps ++ [p]) o) ->
    (forall ps p q o, P ps o ->
       contributes questionsMap code p = true ->
       question_of questionsMap p = Some q ->
       P (ps ++ [p]) (Some (observe Date_parse code p q o))) ->
    (forall ps p q a, P (ps ++ [p]) (Some a) ->
       contributes questionsMap code p = true ->
       question_of questionsMap p = Some q ->
       P (ps ++ [p]) (Some (observe Date_parse code p q (Some a)))) ->
    forall ps, P ps (acc_of Date_parse questionsMap code ps).
Proof.
  intros code P Hnil Hskip Hfirst Hnext ps.
  induction ps as [|p ps IH] using rev_ind; [exact Hnil|].
  rewrite acc_of_snoc, step_occurrences.
  destruct (contributes questionsMap code p) eqn:Hc.
  - destruct (contributes_question _ _ Hc) as [q Hq]. rewrite Hq.
    pose proof (proj1 (occurrences_contributes code p) Hc) as Hpos.
    destruct (occurrences questionsMap code p) as [|n]; [lia|]. clear Hpos.
    induction n as [|n IHn].
    + simpl. apply Hfirst; assumption.
    + rewrite Nat.iter_succ. apply Hnext; assumption.
  - assert (Hz : occurrences questionsMap code p = 0%nat).
    { destruct (occurrences questionsMap code p) eqn:E; [reflexivity|].
      assert (contributes questionsMap code p = true)
        by (apply occurrences_contributes; lia).
      congruence. }
    rewrite Hz. simpl.
    destruct (question_of questionsMap p); apply Hskip; assumption.
Qed.
End AggregationFacts.

(* ------------------------------------------------------------------ *)
(** ** Rounding to a double                                            *)

Section Rounding.

Lemma round_half_even_floor : forall a b, 0 < b ->
  a / b <= round_half_even a b <= a / b + 1.
Proof.
  intros a b Hb. unfold round_half_even.
  destruct (2 * (a mod b) ?= b); [destruct (Z.even (a / b))| |]; lia.
Qed.

Lemma round_half_even_up : forall a b, 0 < b ->
  round_half_even a b = a / b + 1 -> b <= 2 * (a mod b).
Proof.
  intros a b Hb. unfold round_half_even.
  generalize (a / b) (a mod b). intros q r.
  destruct (2 * r ?= b) eqn:E.
  - apply Z.compare_eq in E. intros _. lia.
  - lia.
  - apply Z.compare_gt_iff in E. lia.
Qed.

Lemma round_half_even_down : forall a b, 0 < b ->
  round_half_even a b = a / b -> 2 * (a mod b) <= b.
Proof.
  intros a b Hb. unfold round_half_even.
  generalize (a / b) (a mod b). intros q r.
  destruct (2 * r ?= b) eqn:E.
  - apply Z.compare_eq in E. intros _. lia.
  - change (2 * r < b) in E. lia.
  - lia.
Qed.

(** Rounding does not cross an integer above ... *)
Lemma round_half_even_le : forall a b N, 0 < b ->
  a <= N * b -> round_half_even a b <= N.
Proof.
  intros a b N Hb H.
  pose proof (round_half_even_floor a Hb) as [_ Hup].
  pose proof (Z.mod_pos_bound a b Hb) as Hr.
  pose proof (Z.div_mod a b ltac:(lia)) as Hd.
  assert (Hq : a / b <= N) by (apply Z.div_le_upper_bound; lia).
  destruct (Z.eq_dec (round_half_even a b) (a / b + 1)) as [E | E]; [|lia].
  apply round_half_even_up in E; [|assumption].
  destruct (Z.eq_dec (a / b) N) as [Heq | Hne]; [rewrite Heq in *; nia | lia].
Qed.

(** ... nor an integer below. *)
Lemma round_half_even_ge : forall a b N, 0 < b ->
  N * b <= a -> N <= round_half_even a b.
Proof.
  intros a b N Hb H.
  pose proof (round_half_even_floor a Hb) as [Hlo _].
  assert (Hq : N <= a / b) by (apply Z.div_le_lower_bound; lia).
  lia.
Qed.

Lemma pow2_pos : forall k, 0 < 2 ^ k \/ k < 0.
Proof.
  intro k. destruct (Z_lt_le_dec k 0); [right; assumption | left].
  apply Z.pow_pos_nonneg; lia.
Qed.

(** [binade n d] is not above the exponent of [n / d]. *)
Lemma binade_lower : forall n d, 0 < n -> 0 < d ->
  d * 2 ^ Z.max 0 (binade n d) <= n * 2 ^ Z.max 0 (- binade n d).
Proof.
  intros n d Hn Hd. unfold binade.
  set (e0 := Z.log2 n - Z.log2 d).
  destruct (d * 2 ^ Z.max 0 e0 <=? n * 2 ^ Z.max 0 (- e0)) eqn:E.
  - apply Z.leb_le in E. exact E.
  - clear E.
    pose proof (Z.log2_spec n Hn) as [Hn1 Hn2].
    pose proof (Z.log2_spec d Hd) as [Hd1 Hd2].
    pose proof (Z.log2_nonneg n) as Ha. pose proof (Z.log2_nonneg d) as Hb.
    destruct (Z_lt_le_dec (e0 - 1) 0) as [Hneg | Hpos].
    + replace (Z.max 0 (e0 - 1)) with 0 by lia.
      replace (Z.max 0 (- (e0 - 1))) with (Z.log2 d + 1 - Z.log2 n) by lia.
      rewrite Z.pow_0_r, Z.mul_1_r.
      apply Z.le_trans with (2 ^ Z.succ (Z.log2 d)); [lia|].
      replace (Z.succ (Z.log2 d)) with (Z.log2 n + (Z.log2 d + 1 - Z.log2 n)) by lia.
      rewrite Z.pow_add_r by lia.
      apply Z.mul_le_mono_nonneg_r; [apply Z.pow_nonneg; lia | assumption].
    + replace (Z.max 0 (e0 - 1)) with (Z.log2 n - Z.log2 d - 1) by lia.
      replace (Z.max 0 (- (e0 - 1))) with 0 by lia.
      rewrite Z.pow_0_r, Z.mul_1_r.
      apply Z.le_trans with (2 ^ Z.log2 n); [|assumption].
      replace (Z.log2 n) with (Z.succ (Z.log2 d) + (Z.log2 n - Z.log2 d - 1)) at 2 by lia.
      rewrite Z.pow_add_r by lia.
      apply Z.mul_le_mono_nonneg_r; [apply Z.pow_nonneg; lia | lia].
Qed.

Lemma Qmake_le_inject : forall a p B, a <= B * Zpos p -> (Qmake a p <= inject_Z B)%Q.
Proof. intros a p B H. unfold Qle. simpl. lia. Qed.

Lemma inject_le_Qmake : forall a p B, B * Zpos p <= a -> (inject_Z B <= Qmake a p)%Q.
Proof. intros a p B H. unfold Qle. simpl. lia. Qed.

Lemma Z_to_pos_pow2 : forall k, 0 <= k -> Zpos (Z.to_pos (2 ^ k)) = 2 ^ k.
Proof.
  intros k Hk. apply Z2Pos.id. apply Z.pow_pos_nonneg; lia.
Qed.

Lemma RN_pos_nonneg : forall n d, 0 < n -> 0 < d -> (0 <= RN_pos n d)%Q.
Proof.
  intros n d Hn Hd. unfold RN_pos.
  set (k := binade n d - 52).
  destruct (0 <=? k) eqn:Ek.
  - apply Z.leb_le in Ek.
    assert (Hp : 0 < 2 ^ k) by (apply Z.pow_pos_nonneg; lia).
    change 0%Q with (inject_Z 0). rewrite <- Zle_Qle.
    apply Z.mul_nonneg_nonneg; [|lia].
    apply round_half_even_ge; nia.
  - apply Z.leb_gt in Ek.
    assert (Hp : 0 < 2 ^ (- k)) by (apply Z.pow_pos_nonneg; lia).
    rewrite Qred_correct. change 0%Q with (inject_Z 0).
    apply inject_le_Qmake. simpl.
    apply round_half_even_ge; [assumption | nia].
Qed.

Lemma RN_pos_le : forall n d B, 0 < n -> 0 < d -> 0 < B < 2 ^ 53 ->
  n <= B * d -> (RN_pos n d <= inject_Z B)%Q.
Proof.
  intros n d B Hn Hd HB H. unfold RN_pos.
  pose proof (binade_lower Hn Hd) as Hlow.
  set (k := binade n d - 52) in *.
  destruct (0 <=? k) eqn:Ek.
  - apply Z.leb_le in Ek.
    assert (Hp : 0 < 2 ^ k) by (apply Z.pow_pos_nonneg; lia).
    replace (Z.max 0 (binade n d)) with (52 + k) in Hlow by lia.
    replace (Z.max 0 (- binade n d)) with 0 in Hlow by lia.
    rewrite Z.pow_add_r, Z.pow_0_r in Hlow by lia.
    rewrite <- Zle_Qle.
    destruct (Z.eq_dec k 0) as [-> | Hk].
    + rewrite Z.pow_0_r, !Z.mul_1_r. apply round_half_even_le; lia.
    + exfalso.
      assert (2 <= 2 ^ k).
      { change 2 with (2 ^ 1) at 1. apply Z.pow_le_mono_r; lia. }
      assert (d * 2 ^ 53 <= n) by (change (2 ^ 53) with (2 ^ 52 * 2); nia).
      nia.
  - apply Z.leb_gt in Ek.
    assert (Hp : 0 < 2 ^ (- k)) by (apply Z.pow_pos_nonneg; lia).
    rewrite Qred_correct.
    apply Qmake_le_inject. rewrite Z_to_pos_pow2 by lia.
    apply round_half_even_le; [assumption | nia].
Qed.

Lemma RN_nonneg : forall x, (0 <= x)%Q -> (0 <= RN x)%Q.
Proof.
  intros [n d] Hx. unfold RN. simpl.
  destruct n as [|n|n].
  - apply Qle_refl.
  - apply RN_pos_nonneg; reflexivity.
  - unfold Qle in Hx. simpl in Hx. lia.
Qed.

Lemma RN_le : forall x B, 0 < B < 2 ^ 53 ->
  (x <= inject_Z B)%Q -> (RN x <= inject_Z B)%Q.
Proof.
  intros [n d] B HB Hx. unfold RN. simpl.
  destruct n as [|n|n].
  - change 0%Q with (inject_Z 0). rewrite <- Zle_Qle. lia.
  - apply RN_pos_le; try reflexivity; [assumption|].
    unfold Qle in Hx. simpl in Hx. lia.
  - apply Qle_trans with 0%Q.
    + change 0%Q with (- 0)%Q. apply Qopp_le_compat.
      apply RN_pos_nonneg; reflexivity.
    + change 0%Q with (inject_Z 0). rewrite <- Zle_Qle. lia.
Qed.

Lemma Math_round_bounds : forall x B, 0 <= B ->
  (0 <= x)%Q -> (x <= inject_Z B)%Q -> 0 <= Math_round x <= B.
Proof.
  intros x B HB H0 H1. unfold Math_round. split.
  - change 0 with (Qfloor 0). apply Qfloor_resp_le.
    apply Qle_trans with x; [assumption|].
    rewrite <- (Qplus_0_r x) at 1. apply Qplus_le_compat; [apply Qle_refl | discriminate].
  - assert (Hq : (x + (1 # 2) <= inject_Z B + (1 # 2))%Q)
      by (apply Qplus_le_compat; [assumption | apply Qle_refl]).
    apply Qfloor_resp_le in Hq.
    apply Z.le_trans with (1 := Hq).
    unfold Qfloor, Qplus, inject_Z. simpl.
    assert ((B * 2 + 1) / 2 < B + 1) by (apply Z.div_lt_upper_bound; lia).
    lia.
Qed.
End Rounding.

(* ------------------------------------------------------------------ *)
(** ** The two figures computed with a division                        *)

Section Figures.

Lemma ratio_bounds : forall c t, 0 <= c <= t -> 1 <= t ->
  (0 <= inject_Z c / inject_Z t)%Q /\ (inject_Z c / inject_Z t <= inject_Z 1)%Q.
Proof.
  intros c t Hc Ht.
  assert (Htq : (0 < inject_Z t)%Q)
    by (change 0%Q with (inject_Z 0); rewrite <- Zlt_Qlt; lia).
  split.
  - apply Qle_shift_div_l; [assumption|]. rewrite Qmult_0_l.
    change 0%Q with (inject_Z 0). rewrite <- Zle_Qle. lia.
  - apply Qle_shift_div_r; [assumption|]. rewrite Qmult_1_l.
    rewrite <- Zle_Qle. lia.
Qed.

Lemma scale_bounds : forall x (B f : Z), 0 <= f ->
  (0 <= x)%Q -> (x <= inject_Z B)%Q ->
  (0 <= x * inject_Z f)%Q /\ (x * inject_Z f <= inject_Z (B * f))%Q.
Proof.
  intros x B f Hf H0 H1.
  assert (Hfq : (0 <= inject_Z f)%Q)
    by (change 0%Q with (inject_Z 0); rewrite <- Zle_Qle; lia).
  split.
  - apply Qmult_le_0_compat; assumption.
  - rewrite inject_Z_mult. apply Qmult_le_compat_r; assumption.
Qed.

(** The product [(c / t) * 100 * 10] stays between 0 and 1000. *)
Lemma scaled_ratio_bounds : forall c t, 0 <= c <= t -> 1 <= t ->
  (0 <= js_mul (js_mul (js_div (inject_Z c) (inject_Z t)) 100) 10)%Q
  /\ (js_mul (js_mul (js_div (inject_Z c) (inject_Z t)) 100) 10 <= inject_Z 1000)%Q.
Proof.
  intros c t Hc Ht. unfold js_mul, js_div.
  destruct (ratio_bounds Hc Ht) as [A0 A1].
  pose proof (RN_nonneg A0) as B0.
  assert (B1 := @RN_le _ 1 ltac:(lia) A1).
  destruct (@scale_bounds _ 1 100 ltac:(lia) B0 B1) as [C0 C1].
  pose proof (RN_nonneg C0) as D0.
  assert (D1 := @RN_le _ (1 * 100) ltac:(lia) C1).
  destruct (@scale_bounds _ (1 * 100) 10 ltac:(lia) D0 D1) as [E0 E1].
  split; [apply RN_nonneg; exact E0 | apply (@RN_le _ (1 * 100 * 10)); [lia | exact E1]].
Qed.

Lemma percentage_bounds : forall c t, 0 <= c <= t -> 1 <= t ->
  (0 <= percentage c t)%Q /\ (percentage c t <= 100)%Q.
Proof.
  intros c t Hc Ht. unfold percentage.
  replace (0 <? t) with true by (symmetry; apply Z.ltb_lt; lia).
  destruct (scaled_ratio_bounds Hc Ht) as [S0 S1].
  pose proof (@Math_round_bounds _ 1000 ltac:(lia) S0 S1) as [M0 M1].
  set (n := Math_round _) in *.
  assert (Q0 : (0 <= inject_Z n / 10)%Q).
  { apply Qle_shift_div_l; [reflexivity|]. rewrite Qmult_0_l.
    change 0%Q with (inject_Z 0). rewrite <- Zle_Qle. assumption. }
  assert (Q1 : (inject_Z n / 10 <= inject_Z 100)%Q).
  { apply Qle_shift_div_r; [reflexivity|].
    change 10%Q with (inject_Z 10). rewrite <- inject_Z_mult, <- Zle_Qle. lia. }
  unfold js_div. split; [apply RN_nonneg; exact Q0 | apply (@RN_le _ 100); [lia | exact Q1]].
Qed.

Lemma div_interval : forall a b q, 0 < b -> q * b <= a < (q + 1) * b -> a / b = q.
Proof.
  intros a b q Hb H. symmetry. apply Z.div_unique with (r := a - q * b); lia.
Qed.

(** Below 2^52 the rounding of a quotient of integers to a double never
    carries it across a half-integer: [Math.round] of the double is the
    integer nearest to the exact quotient. *)
Lemma Math_round_RN_pos : forall n d m, 0 < n < 2 ^ 52 -> 0 < d ->
  (2 * m - 1) * d <= 2 * n < (2 * m + 1) * d ->
  Math_round (RN_pos n d) = m.
Proof.
  intros n d m Hn Hd Hm. unfold RN_pos.
  pose proof (binade_lower (proj1 Hn) Hd) as Hlow.
  set (e := binade n d) in *.
  assert (He : e <= 51).
  { destruct (Z_lt_le_dec 51 e) as [Hbig|]; [exfalso | assumption].
    replace (Z.max 0 e) with (52 + (e - 52)) in Hlow by lia.
    replace (Z.max 0 (- e)) with 0 in Hlow by lia.
    rewrite Z.pow_add_r, Z.pow_0_r in Hlow by lia.
    assert (0 < 2 ^ (e - 52)) by (apply Z.pow_pos_nonneg; lia).
    nia. }
  replace (0 <=? e - 52) with false by (symmetry; apply Z.leb_gt; lia).
  replace (- (e - 52)) with (1 + (51 - e)) by lia.
  rewrite Z.pow_add_r by lia. change (2 ^ 1) with 2.
  set (K' := 2 ^ (51 - e)).
  assert (HK' : 0 < K') by (apply Z.pow_pos_nonneg; lia).
  assert (HdK : d < 2 * K').
  { destruct (Z_lt_le_dec e 0) as [Hneg | Hpos].
    - replace (Z.max 0 e) with 0 in Hlow by lia.
      replace (Z.max 0 (- e)) with (- e) in Hlow by lia.
      rewrite Z.pow_0_r in Hlow.
      assert (0 < 2 ^ (- e)) by (apply Z.pow_pos_nonneg; lia).
      assert (2 * K' = 2 ^ 52 * 2 ^ (- e)).
      { unfold K'. rewrite <- Z.pow_add_r by lia.
        change 2 with (2 ^ 1) at 1. rewrite <- Z.pow_add_r by lia.
        f_equal. lia. }
      nia.
    - replace (Z.max 0 e) with e in Hlow by lia.
      replace (Z.max 0 (- e)) with 0 in Hlow by lia.
      rewrite Z.pow_0_r in Hlow.
      assert (0 < 2 ^ e) by (apply Z.pow_pos_nonneg; lia).
      assert (2 * K' * 2 ^ e = 2 ^ 52).
      { unfold K'. change 2 with (2 ^ 1) at 1.
        rewrite <- !Z.pow_add_r by lia. f_equal. lia. }
      nia. }
  set (R := round_half_even (n * (2 * K')) d).
  assert (Hlo : (2 * m - 1) * K' <= R).
  { apply round_half_even_ge; [assumption | nia]. }
  assert (Hhi : R < (2 * m + 1) * K').
  { pose proof (round_half_even_floor (n * (2 * K')) Hd) as [_ Hup].
    fold R in Hup.
    pose proof (Z.mod_pos_bound (n * (2 * K')) d Hd) as Hr.
    pose proof (Z.div_mod (n * (2 * K')) d ltac:(lia)) as Hdm.
    assert (Hq : (n * (2 * K')) / d < (2 * m + 1) * K')
      by (apply Z.div_lt_upper_bound; nia).
    destruct (Z.eq_dec R ((n * (2 * K')) / d + 1)) as [E | E]; [|lia].
    apply round_half_even_up in E; [|assumption].
    destruct (Z.eq_dec ((n * (2 * K')) / d + 1) ((2 * m + 1) * K')) as [E' | E']; [|lia].
    exfalso.
    assert (Hqv : (n * (2 * K')) / d = (2 * m + 1) * K' - 1) by lia.
    rewrite Hqv in Hdm.
    assert (1 <= (2 * m + 1) * d - 2 * n) by lia.
    nia. }
  assert (HP : Zpos (Z.to_pos (2 * K')) = 2 * K') by (apply Z2Pos.id; lia).
  set (P := Z.to_pos (2 * K')) in *.
  unfold Math_round. rewrite Qred_correct.
  unfold Qfloor, Qplus. cbn [Qnum Qden].
  rewrite Pos2Z.inj_mul, HP.
  apply div_interval; lia.
Qed.

Lemma Math_round_quotient : forall s l, 0 <= s < 2 ^ 52 -> 0 < l ->
  nearest_integer (Math_round (js_div (inject_Z s) (inject_Z l))) s l.
Proof.
  intros s l Hs Hl. unfold js_div, nearest_integer.
  destruct l as [|p|p]; try lia.
  destruct s as [|n|n]; try lia.
  - vm_compute Math_round. lia.
  - set (m := (2 * Zpos n + Zpos p) / (2 * Zpos p)).
    assert (Hm : (2 * m - 1) * Zpos p <= 2 * Zpos n < (2 * m + 1) * Zpos p).
    { pose proof (Z.div_mod (2 * Zpos n + Zpos p) (2 * Zpos p) ltac:(lia)) as Hdm.
      pose proof (Z.mod_pos_bound (2 * Zpos n + Zpos p) (2 * Zpos p) ltac:(lia)) as Hr.
      fold m in Hdm. lia. }
    replace (Math_round (RN (inject_Z (Zpos n) / inject_Z (Zpos p)))) with m; [exact Hm|].
    symmetry. unfold RN. simpl Qnum. simpl Qden.
    rewrite Pos.mul_1_r.
    apply Math_round_RN_pos; [lia | lia | exact Hm].
Qed.

Lemma round_half_even_error : forall a d, 0 < d ->
  - d <= 2 * (round_half_even a d * d - a) <= d.
Proof.
  intros a d Hd.
  pose proof (round_half_even_floor a Hd) as [Hlo Hup].
  pose proof (Z.mod_pos_bound a d Hd) as Hr.
  pose proof (Z.div_mod a d ltac:(lia)) as Hdm.
  destruct (Z.eq_dec (round_half_even a d) (a / d)) as [E | E].
  - pose proof (round_half_even_down a Hd E) as H. rewrite E. nia.
  - assert (E' : round_half_even a d = a / d + 1) by lia.
    pose proof (round_half_even_up a Hd E') as H. rewrite E'. nia.
Qed.

(** Below [2^b], rounding to a double moves a number by at most
    [2^(b-53)]. *)
Lemma RN_pos_error : forall n d b, 0 < n -> 0 < d -> 0 <= b <= 51 ->
  n <= 2 ^ b * d ->
  exists R K, 0 < K /\ (RN_pos n d == Qmake R (Z.to_pos K))%Q
    /\ 2 ^ (53 - b) <= 2 * K
    /\ - d <= 2 * (R * d - n * K) <= d.
Proof.
  intros n d b Hn Hd Hb Hle. unfold RN_pos.
  pose proof (binade_lower Hn Hd) as Hlow.
  set (e := binade n d) in *.
  assert (He : e <= b).
  { destruct (Z_lt_le_dec b e) as [Hbig|]; [exfalso | assumption].
    replace (Z.max 0 e) with (b + (e - b)) in Hlow by lia.
    replace (Z.max 0 (- e)) with 0 in Hlow by lia.
    rewrite Z.pow_add_r, Z.pow_0_r in Hlow by lia.
    assert (0 < 2 ^ b) by (apply Z.pow_pos_nonneg; lia).
    assert (2 <= 2 ^ (e - b)).
    { change 2 with (2 ^ 1) at 1. apply Z.pow_le_mono_r; lia. }
    nia. }
  replace (0 <=? e - 52) with false by (symmetry; apply Z.leb_gt; lia).
  exists (round_half_even (n * 2 ^ (- (e - 52))) d), (2 ^ (- (e - 52))).
  assert (HK : 0 < 2 ^ (- (e - 52))) by (apply Z.pow_pos_nonneg; lia).
  split; [exact HK|]. split; [apply Qred_correct|]. split.
  - assert (Hp : 2 ^ (53 - e) = 2 * 2 ^ (- (e - 52))).
    { replace (53 - e) with (1 + (- (e - 52))) by lia.
      rewrite Z.pow_add_r by lia. reflexivity. }
    rewrite <- Hp. apply Z.pow_le_mono_r; lia.
  - apply round_half_even_error. exact Hd.
Qed.

Lemma RN_error : forall x b, 0 <= b <= 51 ->
  (0 <= x)%Q -> (x <= inject_Z (2 ^ b))%Q ->
  (x - (1 # Z.to_pos (2 ^ (53 - b))) <= RN x)%Q
  /\ (RN x <= x + (1 # Z.to_pos (2 ^ (53 - b))))%Q.
Proof.
  intros [n d] b Hb H0 H1. unfold RN. cbn [Qnum Qden].
  assert (HE : 0 < 2 ^ (53 - b)) by (apply Z.pow_pos_nonneg; lia).
  destruct n as [|n|n].
  - split; unfold Qle, Qminus, Qplus, Qopp; simpl; lia.
  - assert (Hle : Zpos n <= 2 ^ b * Zpos d).
    { unfold Qle in H1. simpl in H1. lia. }
    destruct (@RN_pos_error (Zpos n) (Zpos d) b eq_refl eq_refl Hb Hle)
      as [R [K (HK & Heq & HEK & Herr)]].
    rewrite Heq.
    unfold Qle, Qminus, Qplus, Qopp. cbn [Qnum Qden].
    rewrite !Pos2Z.inj_mul, !Z2Pos.id by lia.
    set (E := 2 ^ (53 - b)) in *. split; nia.
  - unfold Qle in H0. simpl in H0. lia.
Qed.


Lemma Qfloor_unique : forall y m,
  (inject_Z m <= y)%Q -> (y < inject_Z (m + 1))%Q -> Qfloor y = m.
Proof.
  intros y m Hlo Hhi.
  pose proof (Qfloor_le y) as H1. pose proof (Qlt_floor y) as H2.
  assert (A : (inject_Z (Qfloor y) < inject_Z (m + 1))%Q)
    by (eapply Qle_lt_trans; eassumption).
  assert (B : (inject_Z m < inject_Z (Qfloor y + 1))%Q)
    by (eapply Qle_lt_trans; eassumption).
  rewrite <- Zlt_Qlt in A, B. lia.
Qed.

(** The double [(c / t) * 100 * 10] is within [2^-41] of [1000 c / t]. *)
Lemma scaled_ratio_close : forall c t, 0 <= c <= t -> 1 <= t ->
  let x := (inject_Z c / inject_Z t * 1000)%Q in
  let z := js_mul (js_mul (js_div (inject_Z c) (inject_Z t)) 100) 10 in
  (x - (1 # 2199023255552) <= z)%Q /\ (z <= x + (1 # 2199023255552))%Q.
Proof.
  intros c t Hc Ht x z. unfold x, z, js_mul, js_div.
  destruct (ratio_bounds Hc Ht) as [A0 A1].
  set (X := (inject_Z c / inject_Z t)%Q) in *.
  destruct (@RN_error X 0 ltac:(lia) A0 A1) as [E0 E0'].
  pose proof (RN_nonneg A0) as B0.
  assert (B1 := @RN_le _ 1 ltac:(lia) A1).
  set (q := RN X) in *.
  assert (C0 : (0 <= q * 100)%Q) by lra.
  assert (C1 : (q * 100 <= inject_Z (2 ^ 7))%Q).
  { change (inject_Z (2 ^ 7)) with 128%Q. change (inject_Z 1) with 1%Q in B1. lra. }
  destruct (@RN_error (q * 100)%Q 7 ltac:(lia) C0 C1) as [E1 E1'].
  pose proof (RN_nonneg C0) as D0.
  assert (D1 : (RN (q * 100) <= inject_Z 100)%Q).
  { apply RN_le; [lia|]. change (inject_Z 100) with 100%Q.
    change (inject_Z 1) with 1%Q in B1. lra. }
  set (y := RN (q * 100)) in *.
  assert (F0 : (0 <= y * 10)%Q) by lra.
  assert (F1 : (y * 10 <= inject_Z (2 ^ 10))%Q).
  { change (inject_Z (2 ^ 10)) with 1024%Q. change (inject_Z 100) with 100%Q in D1. lra. }
  destruct (@RN_error (y * 10)%Q 10 ltac:(lia) F0 F1) as [E2 E2'].
  change (Z.to_pos (2 ^ (53 - 0))) with 9007199254740992%positive in *.
  change (Z.to_pos (2 ^ (53 - 7))) with 70368744177664%positive in *.
  change (Z.to_pos (2 ^ (53 - 10))) with 8796093022208%positive in *.
  split; lra.
Qed.


Lemma scaled_exact_fraction : forall c p,
  (inject_Z c / inject_Z (Zpos p) * 1000 + (1 # 2) == (2000 * c + Zpos p) # (2 * p))%Q.
Proof.
  intros c p. unfold Qeq, Qdiv, Qmult, Qplus, Qinv, inject_Z. cbn [Qnum Qden].
  rewrite !Pos2Z.inj_mul. lia.
Qed.

(** [Math.round] of the double [(c / t) * 100 * 10] is [Math.round] of
    the exact [1000 c / t], unless the latter is half-way between two
    integers, where it may also be the integer below. *)
Lemma Math_round_scaled_ratio : forall c t, 0 <= c <= t -> 1 <= t < 2 ^ 40 ->
  let m := Math_round (inject_Z c / inject_Z t * 1000) in
  let z := js_mul (js_mul (js_div (inject_Z c) (inject_Z t)) 100) 10 in
  ((2000 * c + t) mod (2 * t) <> 0 -> Math_round z = m)
  /\ (Math_round z = m \/ Math_round z = m - 1).
Proof.
  intros c t Hc Ht m z.
  destruct (scaled_ratio_close Hc (proj1 Ht)) as [Zlo Zhi]. fold z in Zlo, Zhi.
  destruct t as [|p|p]; try lia.
  set (x := (inject_Z c / inject_Z (Zpos p) * 1000)%Q) in *.
  pose proof (scaled_exact_fraction c p) as Hx. fold x in Hx.
  assert (Hm : m = (2000 * c + Zpos p) / (2 * Zpos p)).
  { unfold m, Math_round. fold x. rewrite (Qfloor_comp _ _ Hx). reflexivity. }
  pose proof (Z.div_mod (2000 * c + Zpos p) (2 * Zpos p) ltac:(lia)) as Hdm.
  pose proof (Z.mod_pos_bound (2000 * c + Zpos p) (2 * Zpos p) ltac:(lia)) as Hr.
  rewrite <- Hm in Hdm.
  set (r := (2000 * c + Zpos p) mod (2 * Zpos p)) in *.
  set (F := ((2000 * c + Zpos p) # (2 * p))%Q) in *.
  assert (Heps : ((1 # 2199023255552) < (1 # (2 * p)))%Q).
  { unfold Qlt. cbn [Qnum Qden]. change (2 ^ 40) with 1099511627776 in Ht. lia. }
  assert (Hup : (F <= inject_Z m + 1 - (1 # (2 * p)))%Q).
  { unfold F, Qle, Qminus, Qplus, Qopp, inject_Z. cbn [Qnum Qden].
    rewrite !Pos2Z.inj_mul. nia. }
  assert (Hlow : (inject_Z m <= F)%Q).
  { unfold F, Qle, inject_Z. cbn [Qnum Qden]. rewrite !Pos2Z.inj_mul. nia. }
  assert (Hhi : (z + (1 # 2) < inject_Z (m + 1))%Q).
  { rewrite inject_Z_plus. change (inject_Z 1) with 1%Q. lra. }
  split.
  - intro Hnz.
    assert (Hgap : (inject_Z m + (1 # (2 * p)) <= F)%Q).
    { unfold F, Qle, Qplus, inject_Z. cbn [Qnum Qden].
      rewrite !Pos2Z.inj_mul. nia. }
    unfold Math_round. apply Qfloor_unique; [lra | exact Hhi].
  - destruct (Qlt_le_dec (z + (1 # 2)) (inject_Z m)) as [Hbelow | Habove].
    + right. unfold Math_round. apply Qfloor_unique.
      * assert (Hm1 : (inject_Z (m - 1) == inject_Z m - 1)%Q)
          by (unfold Qeq, Qminus, Qplus, Qopp, inject_Z; cbn [Qnum Qden]; lia).
        lra.
      * replace (m - 1 + 1) with m by lia. exact Hbelow.
    + left. unfold Math_round. apply Qfloor_unique; assumption.
Qed.
End Figures.

(* ------------------------------------------------------------------ *)
(** ** The stored objects                                              *)

Section Stored.
Variable Date_parse : string -> Date.
Variable questionsMap : JSMap.t Id Question.t.

Local Notation "'acc'" := (acc_of Date_parse questionsMap).
Local Notation "'obs'" := (observe Date_parse).

Lemma latency_of_truthy : forall p,
  latency_of p
  = match Practice.response_time_ms p with
    | Some ms => if truthy_num (Some ms) then [ms] else []
    | None => []
    end.
Proof.
  intro p. unfold latency_of, truthy_num.
  destruct (Practice.response_time_ms p) as [ms|]; [|reflexivity].
  destruct (ms =? 0); reflexivity.
Qed.

(** What one visit does to the four collected quantities. *)
Lemma observe_figures : forall code p q o,
  Acc.total_attempts (obs code p q o) = o_total o + 1
  /\ Acc.correct_count (obs code p q o)
     = o_correct o + (if Practice.correct p then 1 else 0)
  /\ Acc.incorrect_count (obs code p q o)
     = o_incorrect o + (if Practice.correct p then 0 else 1)
  /\ Acc.response_times (obs code p q o) = o_times o ++ latency_of p.
Proof.
  intros code p q o. rewrite latency_of_truthy.
  unfold observe, record_attempt. cbn [Acc.total_attempts Acc.correct_count
    Acc.incorrect_count Acc.response_times].
  destruct o as [a|]; cbn [o_total o_correct o_incorrect o_times new_mastery
    Acc.total_attempts Acc.correct_count Acc.incorrect_count Acc.response_times];
  destruct (Practice.correct p);
  destruct (Practice.response_time_ms p) as [ms|];
  try destruct (truthy_num (Some ms));
  rewrite ?app_nil_r; repeat split; try reflexivity; lia.
Qed.

(** What [n] visits by the same attempt do. *)
Lemma iterate_figures : forall code p q n o,
  let o' := Nat.iter n (fun o => Some (obs code p q o)) o in
  o_total o' = o_total o + Z.of_nat n
  /\ o_correct o' = o_correct o + (if Practice.correct p then Z.of_nat n else 0)
  /\ o_incorrect o' = o_incorrect o + (if Practice.correct p then 0 else Z.of_nat n)
  /\ o_times o' = o_times o ++ List.concat (repeat (latency_of p) n).
Proof.
  intros code p q n. induction n as [|n IH]; intros o; cbv zeta.
  - simpl. rewrite app_nil_r. destruct (Practice.correct p); repeat split; lia.
  - rewrite Nat.iter_succ_r.
    specialize (IH (Some (obs code p q o))). cbv zeta in IH.
    destruct IH as (I1 & I2 & I3 & I4).
    destruct (observe_figures code p q o) as (F1 & F2 & F3 & F4).
    rewrite I1, I2, I3, I4. cbn [o_total o_correct o_incorrect o_times].
    rewrite F1, F2, F3, F4. simpl repeat. simpl List.concat.
    rewrite <- app_assoc.
    destruct (Practice.correct p); repeat split; lia.
Qed.

(** One more attempt in the history: every figure of a code grows by as
    many visits as the code has occurrences in the attempt's code list. *)
Lemma acc_snoc_figures : forall code ps p,
  let n := occurrences questionsMap code p in
  o_total (acc code (ps ++ [p])) = o_total (acc code ps) + Z.of_nat n
  /\ o_correct (acc code (ps ++ [p]))
     = o_correct (acc code ps) + (if Practice.correct p then Z.of_nat n else 0)
  /\ o_incorrect (acc code (ps ++ [p]))
     = o_incorrect (acc code ps) + (if Practice.correct p then 0 else Z.of_nat n)
  /\ o_times (acc code (ps ++ [p]))
     = o_times (acc code ps) ++ List.concat (repeat (latency_of p) n).
Proof.
  intros code ps p n. rewrite acc_of_snoc, step_occurrences.
  destruct (question_of questionsMap p) as [q|] eqn:Hq.
  - apply iterate_figures.
  - assert (Hn : n = 0%nat).
    { unfold n, occurrences, codes_of. rewrite Hq. reflexivity. }
    rewrite Hn. simpl. rewrite app_nil_r.
    destruct (Practice.correct p); repeat split; lia.
Qed.

Lemma visits_snoc : forall code ps p,
  visits questionsMap code (ps ++ [p])
  = visits questionsMap code ps + Z.of_nat (occurrences questionsMap code p).
Proof.
  intros code ps p. unfold visits. induction ps as [|p0 ps IH]; simpl.
  - lia.
  - rewrite IH. lia.
Qed.

Lemma latencies_snoc : forall code ps p,
  latencies questionsMap code (ps ++ [p])
  = latencies questionsMap code ps
    ++ List.concat (repeat (latency_of p) (occurrences questionsMap code p)).
Proof.
  intros code ps p. unfold latencies.
  rewrite flat_map_app. simpl. rewrite app_nil_r. reflexivity.
Qed.

(** The stored total is the number of visits, the stored list is the
    list of collected latencies. *)
Lemma acc_total_visits : forall code ps,
  o_total (acc code ps) = visits questionsMap code ps
  /\ o_times (acc code ps) = latencies questionsMap code ps.
Proof.
  intros code ps. induction ps as [|p ps [IH1 IH2]] using rev_ind.
  - split; reflexivity.
  - destruct (acc_snoc_figures code ps p) as (F1 & _ & _ & F4).
    rewrite F1, F4, visits_snoc, latencies_snoc, IH1, IH2. split; reflexivity.
Qed.

Lemma visits_nonneg : forall code ps, 0 <= visits questionsMap code ps.
Proof.
  intros code ps. unfold visits. induction ps as [|p ps IH]; simpl; lia.
Qed.

(** The key of a stored object is its own [standard_code]; its counters
    add up and it was visited at least once. *)
Lemma acc_sound : forall code ps a,
  acc code ps = Some a ->
  Acc.standard_code a = code
  /\ Acc.total_attempts a = Acc.correct_count a + Acc.incorrect_count a
  /\ 1 <= Acc.total_attempts a
  /\ 0 <= Acc.correct_count a /\ 0 <= Acc.incorrect_count a.
Proof.
  intros code ps.
  apply (acc_of_invariant Date_parse questionsMap code
    (fun _ o => forall a, o = Some a ->
       Acc.standard_code a = code
       /\ Acc.total_attempts a = Acc.correct_count a + Acc.incorrect_count a
       /\ 1 <= Acc.total_attempts a
       /\ 0 <= Acc.correct_count a /\ 0 <= Acc.incorrect_count a)).
  - discriminate.
  - auto.
  - intros _ p q o IH _ _ a Ha. inversion Ha; subst a; clear Ha.
    destruct (observe_figures code p q o) as (F1 & F2 & F3 & _).
    rewrite F1, F2, F3.
    destruct o as [a0|]; cbn [o_total o_correct o_incorrect].
    + destruct (IH a0 eq_refl) as (C & T & P1 & P2 & P3).
      split; [exact C|]. destruct (Practice.correct p); lia.
    + split; [reflexivity|]. destruct (Practice.correct p); lia.
  - intros _ p q a0 IH _ _ a Ha. inversion Ha; subst a; clear Ha.
    destruct (observe_figures code p q (Some a0)) as (F1 & F2 & F3 & _).
    rewrite F1, F2, F3. cbn [o_total o_correct o_incorrect].
    destruct (IH a0 eq_refl) as (C & T & P1 & P2 & P3).
    split; [exact C|]. destruct (Practice.correct p); lia.
Qed.

(** A code has a stored object exactly when some attempt of the history
    contributes to it. *)
Lemma acc_present : forall code ps,
  acc code ps <> None
  <-> exists p, In p ps /\ contributes questionsMap code p = true.
Proof.
  intros code ps.
  apply (acc_of_invariant Date_parse questionsMap code
    (fun ps o => o <> None
       <-> exists p, In p ps /\ contributes questionsMap code p = true)).
  - split; [congruence | intros [p [[] _]]].
  - intros ps0 p o IH Hc. rewrite IH. split.
    + intros [p0 [Hin H0]]. exists p0. split; [apply in_or_app; left|]; assumption.
    + intros [p0 [Hin H0]]. apply in_app_or in Hin. destruct Hin as [Hin | [-> | []]].
      * exists p0. split; assumption.
      * congruence.
  - intros ps0 p q o _ Hc _. split; [|discriminate].
    intros _. exists p. split; [apply in_or_app; right; left; reflexivity | assumption].
  - intros ps0 p q a IH Hc _. split; [|discriminate].
    intros _. exists p. split; [apply in_or_app; right; left; reflexivity | assumption].
Qed.
End Stored.

(* ------------------------------------------------------------------ *)
(** ** Recency                                                         *)

Section Recency.
Variable Date_parse : string -> Date.
Variable questionsMap : JSMap.t Id Question.t.

Local Notation "'acc'" := (acc_of Date_parse questionsMap).
Local Notation "'obs'" := (observe Date_parse).

Lemma observe_last_attempted : forall code p q o,
  Acc.last_attempted (obs code p q o)
  = let current := match o with
                   | Some a => Acc.last_attempted a
                   | None => Practice.created_at p
                   end in
    if date_gt (Date_parse (Practice.created_at p)) (Date_parse current)
    then Practice.created_at p else current.
Proof. intros code p q [a|]; reflexivity. Qed.

Lemma date_gt_irrefl : forall d, date_gt d d = false.
Proof. intros [t|]; simpl; [apply Z.ltb_irrefl | reflexivity]. Qed.

Lemma well_formed_prefix : forall code ps p,
  well_formed Date_parse questionsMap code (ps ++ [p]) -> well_formed Date_parse questionsMap code ps.
Proof.
  intros code ps p H p' Hin. apply H. apply in_or_app. left. assumption.
Qed.

Lemma acc_last_attempted : forall code ps a,
  acc code ps = Some a ->
  well_formed Date_parse questionsMap code ps ->
  exists p, latest Date_parse questionsMap code ps p /\ Acc.last_attempted a = Practice.created_at p.
Proof.
  intros code ps.
  apply (acc_of_invariant Date_parse questionsMap code
    (fun ps o =>
       (o = None -> forall p, In p ps -> contributes questionsMap code p = false)
       /\ forall a, o = Some a -> well_formed Date_parse questionsMap code ps ->
            exists p, latest Date_parse questionsMap code ps p
                      /\ Acc.last_attempted a = Practice.created_at p)).
  - split; [intros _ p [] | discriminate].
  - intros ps0 p o [IHn IHs] Hc. split.
    + intros Ho p' Hin. apply in_app_or in Hin.
      destruct Hin as [Hin | [<- | []]]; [apply IHn | ]; assumption.
    + intros a Ha Hwf.
      destruct (IHs a Ha (@well_formed_prefix _ _ _ Hwf)) as [p0 [(Hin0 & Hc0 & t0 & Ht0 & Hmax) Hl]].
      exists p0. split; [|exact Hl].
      split; [apply in_or_app; left; assumption|]. split; [assumption|].
      exists t0. split; [assumption|].
      intros p' Hin' Hc'. apply in_app_or in Hin'.
      destruct Hin' as [Hin' | [<- | []]]; [apply Hmax; assumption | congruence].
  - intros ps0 p q o [IHn IHs] Hc Hq. split; [discriminate|].
    intros a Ha Hwf. inversion Ha; subst a; clear Ha.
    rewrite observe_last_attempted. cbv zeta.
    assert (Hp : In p (ps0 ++ [p])) by (apply in_or_app; right; left; reflexivity).
    destruct (Date_parse (Practice.created_at p)) as [t|] eqn:Ht;
      [|exfalso; exact (Hwf p Hp Hc Ht)].
    destruct o as [a0|].
    + destruct (IHs a0 eq_refl (@well_formed_prefix _ _ _ Hwf))
        as [p0 [(Hin0 & Hc0 & t0 & Ht0 & Hmax) Hl]].
      rewrite Hl, Ht0. simpl date_gt.
      destruct (t0 <? t) eqn:Hlt.
      * apply Z.ltb_lt in Hlt. exists p. split; [|reflexivity].
        split; [assumption|]. split; [assumption|].
        exists t. split; [assumption|].
        intros p' Hin' Hc'. apply in_app_or in Hin'.
        destruct Hin' as [Hin' | [<- | []]].
        -- destruct (Hmax p' Hin' Hc') as [t' [Ht' Hle]].
           exists t'. split; [assumption | lia].
        -- exists t. split; [assumption | lia].
      * apply Z.ltb_ge in Hlt. exists p0. split; [|reflexivity].
        split; [apply in_or_app; left; assumption|]. split; [assumption|].
        exists t0. split; [assumption|].
        intros p' Hin' Hc'. apply in_app_or in Hin'.
        destruct Hin' as [Hin' | [<- | []]].
        -- apply Hmax; assumption.
        -- exists t. split; [assumption | lia].
    + rewrite Ht, date_gt_irrefl. exists p. split; [|reflexivity].
      split; [assumption|]. split; [assumption|].
      exists t. split; [assumption|].
      intros p' Hin' Hc'. apply in_app_or in Hin'.
      destruct Hin' as [Hin' | [<- | []]].
      * rewrite (IHn eq_refl p' Hin') in Hc'. discriminate.
      * exists t. split; [assumption | lia].
  - intros ps0 p q a0 [_ IHs] Hc Hq. split; [discriminate|].
    intros a Ha Hwf. inversion Ha; subst a; clear Ha.
    rewrite observe_last_attempted. cbv zeta.
    destruct (IHs a0 eq_refl Hwf) as [p0 [(Hin0 & Hc0 & t0 & Ht0 & Hmax) Hl]].
    assert (Hp : In p (ps0 ++ [p])) by (apply in_or_app; right; left; reflexivity).
    destruct (Hmax p Hp Hc) as [t [Ht Hle]].
    rewrite Hl, Ht, Ht0. simpl date_gt.
    replace (t0 <? t) with false by (symmetry; apply Z.ltb_ge; assumption).
    exists p0. split; [|reflexivity].
    split; [assumption|]. split; [assumption|].
    exists t0. split; assumption.
Qed.

(** A timestamp that does not parse never replaces [last_attempted], and
    a [last_attempted] that does not parse is never replaced. *)
Lemma record_attempt_unparsed : forall p a,
  Date_parse (Practice.created_at p) = None
  \/ Date_parse (Acc.last_attempted a) = None ->
  Acc.last_attempted (record_attempt Date_parse p a) = Acc.last_attempted a.
Proof.
  intros p a H. unfold record_attempt, new_Date. cbn [Acc.last_attempted].
  destruct H as [H | H]; rewrite H.
  - reflexivity.
  - destruct (Date_parse (Practice.created_at p)); reflexivity.
Qed.
End Recency.

(* ------------------------------------------------------------------ *)
(** ** From the stored objects to the payload                          *)

Section Output.
Variable Date_parse : string -> Date.
Variable questions : list Question.t.

Local Notation "'qm'" := (questionsMap_of questions).

Lemma get_masteryMap_of : forall ps code,
  JSMap.get String.eqb (masteryMap_of Date_parse ps questions) code
  = acc_of Date_parse qm code ps.
Proof.
  intros ps code. unfold masteryMap_of, acc_of.
  rewrite get_fold_practice. reflexivity.
Qed.

Lemma NoDup_keys_masteryMap_of : forall ps,
  NoDup (JSMap.keys (masteryMap_of Date_parse ps questions)).
Proof.
  intro ps. unfold masteryMap_of. apply NoDup_keys_fold_practice. constructor.
Qed.

Lemma in_masteryMap_of : forall ps code a,
  In (code, a) (masteryMap_of Date_parse ps questions)
  <-> acc_of Date_parse qm code ps = Some a.
Proof.
  intros ps code a. rewrite <- get_masteryMap_of. split.
  - apply (In_get String.eqb String.eqb_eq). apply NoDup_keys_masteryMap_of.
  - apply (get_In String.eqb String.eqb_eq).
Qed.

(** Every record of the payload is the finalised object stored under
    its own code. *)
Lemma in_computeMastery : forall ps r,
  In r (computeMastery Date_parse ps questions)
  <-> exists a, acc_of Date_parse qm (Mastery.standard_code r) ps = Some a
                /\ r = finalize a.
Proof.
  intros ps r. unfold computeMastery, JSMap.values.
  rewrite map_map, in_map_iff. split.
  - intros [[code a] [Hr Hin]]. simpl in Hr. subst r.
    apply in_masteryMap_of in Hin.
    destruct (acc_sound _ _ _ _ Hin) as [Hcode _].
    exists a. simpl. rewrite Hcode. split; [assumption | reflexivity].
  - intros [a [Ha Hr]]. exists (Mastery.standard_code r, a).
    split; [symmetry; exact Hr | apply in_masteryMap_of; exact Ha].
Qed.

Lemma codes_computeMastery : forall ps,
  map Mastery.standard_code (computeMastery Date_parse ps questions)
  = JSMap.keys (masteryMap_of Date_parse ps questions).
Proof.
  intro ps. unfold computeMastery, JSMap.values, JSMap.keys.
  rewrite !map_map. apply map_ext_in.
  intros [code a] Hin. simpl. apply in_masteryMap_of in Hin.
  destruct (acc_sound _ _ _ _ Hin) as [Hcode _]. exact Hcode.
Qed.
End Output.

(* ------------------------------------------------------------------ *)
(** ** Claims about the mastery aggregation                            *)

(** C10. The records of the payload carry pairwise distinct standard
    codes, and a code has a record exactly when some attempt of the
    history contributes to it. *)
Theorem one_record_per_code :
  forall (Date_parse : string -> Date) (practiceHistory : list Practice.t)
         (questions : list Question.t),
    let payload := computeMastery Date_parse practiceHistory questions in
    NoDup (map Mastery.standard_code payload)
    /\ forall code,
         In code (map Mastery.standard_code payload)
         <-> exists p, In p practiceHistory
                       /\ contributes (questionsMap_of questions) code p = true.
Proof.
  intros Date_parse ps questions payload. unfold payload. split.
  - rewrite codes_computeMastery. apply NoDup_keys_masteryMap_of.
  - intro code. rewrite <- (acc_present Date_parse). rewrite in_map_iff. split.
    + intros [r [Hcode Hin]]. apply in_computeMastery in Hin.
      destruct Hin as [a [Ha _]]. rewrite Hcode in Ha. congruence.
    + intro Hsome.
      destruct (acc_of Date_parse (questionsMap_of questions) code ps) as [a|] eqn:Ha;
        [|congruence].
      exists (finalize a).
      destruct (acc_sound _ _ _ _ Ha) as [Hcode _].
      split; [exact Hcode|].
      apply in_computeMastery. exists a. simpl. rewrite Hcode. split; [exact Ha | reflexivity].
Qed.

(** C2, as the code has it. Every record of the payload has
    [total_attempts = correct_count + incorrect_count], at least one
    attempt, and a [mastery_percentage] between 0 and 100 that is
    [Math.round((correct_count / total_attempts) * 100 * 10) / 10] evaluated
    in double arithmetic.  Below 2^40 attempts that is
    [round(correct_count / total_attempts * 1000) / 10] or one tenth less,
    and it is the former unless [1000 * correct_count / total_attempts]
    lies half-way between two integers. *)
Theorem mastery_record_invariant :
  forall (Date_parse : string -> Date) (practiceHistory : list Practice.t)
         (questions : list Question.t) (r : Mastery.t),
    In r (computeMastery Date_parse practiceHistory questions) ->
    let c := Mastery.correct_count r in
    let t := Mastery.total_attempts r in
    t = c + Mastery.incorrect_count r
    /\ 1 <= t
    /\ Mastery.mastery_percentage r
       = js_div (inject_Z (Math_round
           (js_mul (js_mul (js_div (inject_Z c) (inject_Z t)) 100) 10))) 10
    /\ (0 <= Mastery.mastery_percentage r)%Q
    /\ (Mastery.mastery_percentage r <= 100)%Q
    /\ (t < 2 ^ 40 ->
        Mastery.mastery_percentage r = spec_percentage_exact c t
        \/ Mastery.mastery_percentage r
           = js_div (inject_Z (Math_round (inject_Z c / inject_Z t * 1000) - 1)) 10)
    /\ (t < 2 ^ 40 -> (2000 * c + t) mod (2 * t) <> 0 ->
        Mastery.mastery_percentage r = spec_percentage_exact c t).
Proof.
  intros Date_parse ps questions r Hin.
  apply in_computeMastery in Hin. destruct Hin as [a [Ha ->]].
  destruct (acc_sound _ _ _ _ Ha) as (_ & Hsum & Hpos & Hc & Hi).
  cbn [finalize Mastery.total_attempts Mastery.correct_count
       Mastery.incorrect_count Mastery.mastery_percentage].
  cbv zeta.
  assert (Hp : percentage (Acc.correct_count a) (Acc.total_attempts a)
               = js_div (inject_Z (Math_round
                   (js_mul (js_mul (js_div (inject_Z (Acc.correct_count a))
                                           (inject_Z (Acc.total_attempts a))) 100) 10))) 10).
  { unfold percentage.
    replace (0 <? Acc.total_attempts a) with true by (symmetry; apply Z.ltb_lt; lia).
    reflexivity. }
  assert (Hct : 0 <= Acc.correct_count a <= Acc.total_attempts a) by lia.
  split; [exact Hsum|]. split; [exact Hpos|]. split; [exact Hp|].
  split; [apply percentage_bounds; lia|]. split; [apply percentage_bounds; lia|].
  split.
  - intro Hsmall.
    destruct (@Math_round_scaled_ratio _ _ Hct (conj Hpos Hsmall)) as [_ [E | E]];
      rewrite Hp, E; [left | right]; reflexivity.
  - intros Hsmall Htie.
    destruct (@Math_round_scaled_ratio _ _ Hct (conj Hpos Hsmall)) as [E _].
    rewrite Hp, (E Htie). reflexivity.
Qed.

(** C4. When the timestamps of the attempts that contribute to a
    record's code all parse, the record's [last_attempted] is the
    [created_at] of one of these attempts and no other of them has a later
    instant. *)
Theorem last_attempted_is_latest :
  forall (Date_parse : string -> Date) (practiceHistory : list Practice.t)
         (questions : list Question.t) (r : Mastery.t),
    In r (computeMastery Date_parse practiceHistory questions) ->
    well_formed Date_parse (questionsMap_of questions)
      (Mastery.standard_code r) practiceHistory ->
    exists p,
      latest Date_parse (questionsMap_of questions)
        (Mastery.standard_code r) practiceHistory p
      /\ Mastery.last_attempted r = Practice.created_at p.
Proof.
  intros Date_parse ps questions r Hin Hwf.
  apply in_computeMastery in Hin. destruct Hin as [a [Ha Hr]].
  destruct (acc_last_attempted Ha Hwf) as [p [Hlatest Hlast]].
  exists p. split; [exact Hlatest|]. rewrite Hr. exact Hlast.
Qed.

(** C3, as the code has it. An attempt is counted for a code once per
    occurrence of the code in the code list of its question: the total,
    the correct or incorrect count and the latency list of the code grow
    by as many visits as there are occurrences. *)
Theorem attempt_counted_per_occurrence :
  forall (Date_parse : string -> Date) (practiceHistory : list Practice.t)
         (practice : Practice.t) (questions : list Question.t) (code : string),
    let before := masteryMap_of Date_parse practiceHistory questions in
    let after := masteryMap_of Date_parse (practiceHistory ++ [practice]) questions in
    let n := occurrences (questionsMap_of questions) code practice in
    total_of after code = total_of before code + Z.of_nat n
    /\ correct_of after code
       = correct_of before code + (if Practice.correct practice then Z.of_nat n else 0)
    /\ incorrect_of after code
       = incorrect_of before code + (if Practice.correct practice then 0 else Z.of_nat n)
    /\ times_of after code
       = times_of before code ++ List.concat (repeat (latency_of practice) n).
Proof.
  intros Date_parse ps p questions code before after n.
  unfold total_of, correct_of, incorrect_of, times_of, before, after.
  rewrite !get_masteryMap_of.
  exact (acc_snoc_figures Date_parse (questionsMap_of questions) code ps p).
Qed.

Lemma average_empty : forall times, average times = None <-> times = [].
Proof.
  intros [|x times]; unfold average; simpl; split; congruence.
Qed.

(** C5, as the code has it. A latency that is present and not zero is
    appended to the list of every code the attempt contributes to, once
    per visit; the list of a record's code is the list of these
    latencies; [avg_response_time_ms] is null exactly when that list is
    empty, and otherwise (for a sum of latencies below 2^52) the integer
    nearest to their mean, the upper one on a tie. *)
Theorem average_of_collected_latencies :
  forall (Date_parse : string -> Date) (practiceHistory : list Practice.t)
         (questions : list Question.t),
    (forall ps p ms code,
       Practice.response_time_ms p = Some ms -> ms <> 0 ->
       times_of (masteryMap_of Date_parse (ps ++ [p]) questions) code
       = times_of (masteryMap_of Date_parse ps questions) code
         ++ repeat ms (occurrences (questionsMap_of questions) code p))
    /\ forall r,
         In r (computeMastery Date_parse practiceHistory questions) ->
         let collected :=
           latencies (questionsMap_of questions) (Mastery.standard_code r)
             practiceHistory in
         times_of (masteryMap_of Date_parse practiceHistory questions)
           (Mastery.standard_code r) = collected
         /\ (Mastery.avg_response_time_ms r = None <-> collected = [])
         /\ (0 <= sum collected < 2 ^ 52 ->
             forall n, Mastery.avg_response_time_ms r = Some n ->
               nearest_integer n (sum collected) (Z.of_nat (List.length collected))).
Proof.
  intros Date_parse ps0 questions. split.
  - intros ps p ms code Hms Hnz.
    unfold times_of. rewrite !get_masteryMap_of.
    destruct (acc_snoc_figures Date_parse (questionsMap_of questions) code ps p)
      as (_ & _ & _ & H).
    unfold o_times in H. rewrite H. f_equal. unfold latency_of. rewrite Hms.
    replace (ms =? 0) with false by (symmetry; apply Z.eqb_neq; assumption).
    generalize (occurrences (questionsMap_of questions) code p).
    intro n. induction n as [|n IH]; simpl; [reflexivity | rewrite IH; reflexivity].
  - intros r Hin collected.
    apply in_computeMastery in Hin. destruct Hin as [a [Ha Hr]].
    destruct (acc_total_visits Date_parse (questionsMap_of questions)
                (Mastery.standard_code r) ps0) as [_ Htimes].
    rewrite Ha in Htimes. cbn [o_times] in Htimes. fold collected in Htimes.
    assert (Havg : Mastery.avg_response_time_ms r = average collected)
      by (rewrite Hr; cbn [finalize Mastery.avg_response_time_ms]; rewrite Htimes; reflexivity).
    split; [|split].
    + unfold times_of. rewrite get_masteryMap_of, Ha. exact Htimes.
    + rewrite Havg. apply average_empty.
    + intros Hsum n Hn. rewrite Havg in Hn. unfold average in Hn.
      destruct (0 <? List.length collected)%nat eqn:Hlen; [|discriminate].
      apply Nat.ltb_lt in Hlen. inversion Hn; subst n.
      apply Math_round_quotient; [exact Hsum | lia].
Qed.

(* ------------------------------------------------------------------ *)
(** ** Timestamps reach nothing but [last_attempted]                   *)

Section Timestamps.
Variables parse1 parse2 : string -> Date.

Lemma strip_record_attempt : forall p a1 a2,
  strip a1 = strip a2 ->
  strip (record_attempt parse1 p a1) = strip (record_attempt parse2 p a2).
Proof.
  intros p [c1 m1 t1 n1 k1 i1 r1 l1] [c2 m2 t2 n2 k2 i2 r2 l2] H.
  unfold strip in *. simpl in *. inversion H; subst. reflexivity.
Qed.

Lemma strip_observe : forall code p q o1 o2,
  option_map strip o1 = option_map strip o2 ->
  strip (observe parse1 code p q o1) = strip (observe parse2 code p q o2).
Proof.
  intros code p q [a1|] [a2|] H; simpl in H; try discriminate;
    unfold observe; apply strip_record_attempt; congruence.
Qed.

Lemma get_erase : forall m k,
  JSMap.get String.eqb (erase m) k = option_map strip (JSMap.get String.eqb m k).
Proof.
  induction m as [|[k' v] m IH]; intro k; simpl; [reflexivity|].
  destruct (String.eqb k k'); [reflexivity | apply IH].
Qed.

Lemma set_erase : forall m k v,
  erase (JSMap.set String.eqb m k v) = JSMap.set String.eqb (erase m) k (strip v).
Proof.
  induction m as [|[k' v'] m IH]; intros k v; simpl; [reflexivity|].
  destruct (String.eqb k k'); simpl; [reflexivity | rewrite IH; reflexivity].
Qed.

Lemma erase_process_code : forall p q m1 m2 code,
  erase m1 = erase m2 ->
  erase (process_code parse1 p q m1 code) = erase (process_code parse2 p q m2 code).
Proof.
  intros p q m1 m2 code H. rewrite !process_code_set, !set_erase, H.
  f_equal. apply strip_observe. rewrite <- !get_erase, H. reflexivity.
Qed.

Lemma erase_fold_practice : forall questionsMap ps m1 m2,
  erase m1 = erase m2 ->
  erase (fold_left (process_practice parse1 questionsMap) ps m1)
  = erase (fold_left (process_practice parse2 questionsMap) ps m2).
Proof.
  intros questionsMap ps.
  induction ps as [|p ps IH]; intros m1 m2 H; simpl; [exact H|].
  apply IH. unfold process_practice.
  destruct (question_of questionsMap p) as [q|]; [|exact H].
  destruct (Question.ny_standards_codes q) as [codes|]; [|exact H].
  revert m1 m2 H. induction codes as [|c codes IHc]; intros m1 m2 H; simpl; [exact H|].
  apply IHc. apply erase_process_code. exact H.
Qed.

Lemma erase_masteryMap_of : forall ps questions,
  erase (masteryMap_of parse1 ps questions) = erase (masteryMap_of parse2 ps questions).
Proof.
  intros ps questions. unfold masteryMap_of.
  apply erase_fold_practice. reflexivity.
Qed.

Lemma forget_last_finalize : forall a,
  forget_last (finalize a) = forget_last (finalize (strip a)).
Proof. intros [c m t n k i r l]. reflexivity. Qed.
End Timestamps.

(** C7, as the code has it. The aggregation has a result on every
    input, malformed timestamps included: whatever the parser makes of the
    timestamps, the payload is the same up to [last_attempted], and a
    timestamp that does not parse only leaves [last_attempted] as it was. *)
Theorem timestamps_only_move_last_attempted :
  forall (Date_parse : string -> Date) (practiceHistory : list Practice.t)
         (questions : list Question.t),
    (forall Date_parse', 
       map forget_last (computeMastery Date_parse practiceHistory questions)
       = map forget_last (computeMastery Date_parse' practiceHistory questions))
    /\ forall p a,
         Date_parse (Practice.created_at p) = None
         \/ Date_parse (Acc.last_attempted a) = None ->
         Acc.last_attempted (record_attempt Date_parse p a) = Acc.last_attempted a.
Proof.
  intros Date_parse ps questions. split.
  - intro Date_parse'. unfold computeMastery, JSMap.values.
    rewrite !map_map.
    transitivity (map (fun kv => forget_last (finalize (snd kv)))
                    (erase (masteryMap_of Date_parse ps questions))).
    + unfold erase. rewrite map_map. apply map_ext.
      intros [k a]. simpl. apply forget_last_finalize.
    + rewrite (erase_masteryMap_of Date_parse Date_parse').
      unfold erase. rewrite map_map. apply map_ext.
      intros [k a]. simpl. symmetry. apply forget_last_finalize.
  - apply record_attempt_unparsed.
Qed.

(* ------------------------------------------------------------------ *)
(** ** Resolving the question of an attempt                            *)

Lemma questionId_saved : forall p,
  Practice.question_type p = Some "saved"%string ->
  questionId p = Practice.question_id p.
Proof. intros p H. unfold questionId. rewrite H. reflexivity. Qed.

Lemma questionId_not_saved : forall p,
  Practice.question_type p <> Some "saved"%string ->
  questionId p = Practice.reference_question_id p.
Proof.
  intros p H. unfold questionId.
  destruct (Practice.question_type p) as [ty|]; [|reflexivity].
  destruct (String.eqb ty "saved") eqn:E; [|reflexivity].
  apply String.eqb_eq in E. congruence.
Qed.

(** An attempt without a catalog entry, or whose entry has no or an
    empty code list, leaves the map of stored objects as it is. *)
Lemma unresolved_attempt_is_skipped :
  forall (Date_parse : string -> Date) questionsMap masteryMap p,
    codes_of questionsMap p = [] ->
    process_practice Date_parse questionsMap masteryMap p = masteryMap.
Proof.
  intros Date_parse questionsMap masteryMap p. unfold codes_of, process_practice.
  destruct (question_of questionsMap p) as [q|]; [|reflexivity].
  destruct (Question.ny_standards_codes q) as [codes|]; [|reflexivity].
  intros ->. reflexivity.
Qed.

(* ------------------------------------------------------------------ *)
(** ** Relation enrichment                                             *)

Section Enrichment.
Variable Row : Type.
Variable row_id : Row -> Id.

Lemma Id_eqb_eq : forall a b, Id_eqb a b = true <-> a = b.
Proof.
  intros [x|x] [y|y]; simpl; split; intro H; try discriminate.
  - apply Z.eqb_eq in H. congruence.
  - inversion H. apply Z.eqb_refl.
  - apply String.eqb_eq in H. congruence.
  - inversion H. apply String.eqb_refl.
Qed.

Lemma get_fold_set_None : forall (entries : list (Id * Row)) m k,
  JSMap.get Id_eqb m k = None ->
  (forall kv, In kv entries -> fst kv <> k) ->
  JSMap.get Id_eqb
    (fold_left (fun m kv => JSMap.set Id_eqb m (fst kv) (snd kv)) entries m) k = None.
Proof.
  induction entries as [|[k' v] entries IH]; intros m k Hm Hk; simpl; [exact Hm|].
  apply IH.
  - rewrite (get_set_other Id_eqb Id_eqb_eq); [exact Hm|].
    apply (Hk (k', v)). left. reflexivity.
  - intros kv Hin. apply Hk. right. exact Hin.
Qed.

(** A key that no row of the response carries is not in the lookup. *)
Lemma lookup_miss : forall (response : Response.t (list Row)) key,
  (forall rows, Response.data response = Some rows -> misses row_id rows key) ->
  get_or_null (lookup_of row_id response) key = None.
Proof.
  intros response [k|] Hmiss; [|reflexivity].
  unfold get_or_null, lookup_of, JSMap.of_entries.
  apply get_fold_set_None; [reflexivity|].
  destruct (Response.data response) as [rows|]; [|intros kv []].
  intros kv Hin. apply in_map_iff in Hin. destruct Hin as [row [<- Hin]]. simpl.
  specialize (Hmiss rows eq_refl row Hin). simpl in Hmiss.
  intro E. rewrite E in Hmiss.
  rewrite (proj2 (Id_eqb_eq k k) eq_refl) in Hmiss. discriminate.
Qed.

Lemma select_in_miss : forall table ids key rows,
  misses row_id table key ->
  Response.data (Gateway.select_in row_id table ids) = Some rows ->
  misses row_id rows key.
Proof.
  intros table ids key rows Hmiss Hrows row Hin.
  simpl in Hrows. inversion Hrows; subst rows.
  apply filter_In in Hin. apply Hmiss. tauto.
Qed.

Lemma select_eq_single_miss : forall table key,
  misses row_id table key ->
  Response.data (Gateway.select_eq_single row_id table key) = None.
Proof.
  intros table key Hmiss. unfold Gateway.select_eq_single.
  assert (E : filter (Gateway.matches row_id key) table = []).
  { induction table as [|row table IH]; [reflexivity|]. simpl.
    rewrite (Hmiss row (or_introl eq_refl)).
    apply IH. intros row' Hin. apply Hmiss. right. exact Hin. }
  rewrite E. reflexivity.
Qed.
End Enrichment.

(** Null on a miss, for any pair of responses of the gateway. *)
Lemma enrich_with_miss :
  forall modulesResponse topicsResponse standards i s,
    nth_error standards i = Some s ->
    exists e,
      nth_error (enrich_with modulesResponse topicsResponse standards) i = Some e
      /\ Enriched.id e = Standard.id s
      /\ ((forall rows, Response.data modulesResponse = Some rows ->
             misses CModule.id rows (Standard.module_id s)) ->
          Enriched.module e = None)
      /\ ((forall rows, Response.data topicsResponse = Some rows ->
             misses Topic.id rows (Standard.topic_id s)) ->
          Enriched.topic e = None).
Proof.
  intros modulesResponse topicsResponse standards i s Hs.
  unfold enrich_with. eexists. split.
  - apply map_nth_error. exact Hs.
  - simpl. split; [reflexivity|]. split; intro H; apply lookup_miss; exact H.
Qed.

(** C8. Enrichment of no standards gives no records; a standard whose
    [module_id] (or [topic_id]) is the identifier of no module (or topic)
    gets [module: null] (or [topic: null]) in the record at its position,
    in the batched variant and in the single-record variant alike. *)
Theorem enrichment_null_safety :
  forall (modules : list CModule.t) (topics : list Topic.t),
    enrichStandardsWithRelations modules topics [] = []
    /\ (forall standards i s,
          nth_error standards i = Some s ->
          exists e,
            nth_error (enrichStandardsWithRelations modules topics standards) i = Some e
            /\ Enriched.id e = Standard.id s
            /\ (misses CModule.id modules (Standard.module_id s) ->
                Enriched.module e = None)
            /\ (misses Topic.id topics (Standard.topic_id s) ->
                Enriched.topic e = None))
    /\ (forall s,
          (misses CModule.id modules (Standard.module_id s) ->
           Enriched.module (enrichedStandard modules topics s) = None)
          /\ (misses Topic.id topics (Standard.topic_id s) ->
              Enriched.topic (enrichedStandard modules topics s) = None)).
Proof.
  intros modules topics. split; [reflexivity|]. split.
  - intros standards i s Hs. unfold enrichStandardsWithRelations.
    destruct (enrich_with_miss
                (Gateway.select_in CModule.id modules
                   (unique option_Id_eqb (map Standard.module_id standards)))
                (Gateway.select_in Topic.id topics
                   (unique option_Id_eqb (map Standard.topic_id standards)))
                standards i Hs) as [e (He & Hid & Hm & Ht)].
    exists e. split; [exact He|]. split; [exact Hid|]. split; intro Hmiss.
    + apply Hm. intros rows Hrows. eapply select_in_miss; eassumption.
    + apply Ht. intros rows Hrows. eapply select_in_miss; eassumption.
  - intro s. unfold enrichedStandard, enrichedStandard_with. simpl.
    split; intro Hmiss; apply select_eq_single_miss; exact Hmiss.
Qed.

(* ------------------------------------------------------------------ *)
(** ** Configuration                                                   *)

(** C9, as the code has it. The allowed origin is the constant
    ["http://localhost:8080"] in every environment; the port and the path
    prefix are the values of [PORT] and [API_PREFIX] when these are set
    and not empty, and 3000 and ["/api/v1"] otherwise. *)
Theorem cors_origin_is_fixed :
  forall e : Config.env,
    Config.origin (Config.cors e) = "http://localhost:8080"%string
    /\ (forall v, e "PORT"%string = Some v -> v <> ""%string ->
          Config.PORT e = Config.PortString v)
    /\ (e "PORT"%string = None -> Config.PORT e = Config.PortNumber 3000)
    /\ (forall v, e "API_PREFIX"%string = Some v -> v <> ""%string ->
          Config.API_PREFIX e = v)
    /\ (e "API_PREFIX"%string = None -> Config.API_PREFIX e = "/api/v1"%string).
Proof.
  intro e. split; [reflexivity|].
  unfold Config.PORT, Config.API_PREFIX, Config.env_or.
  repeat split.
  - intros v Hv Hne. rewrite Hv.
    destruct (String.eqb v "") eqn:E; [apply String.eqb_eq in E; contradiction | reflexivity].
  - intros ->. reflexivity.
  - intros v Hv Hne. rewrite Hv.
    destruct (String.eqb v "") eqn:E; [apply String.eqb_eq in E; contradiction | reflexivity].
  - intros ->. reflexivity.
Qed.
(** C1. Two attempts on a question whose catalog entry carries the codes
    "A.1" and "A.2", the first correct in 500 ms and the second incorrect in
    700 ms, give one record per code, each with 2 attempts, 1 correct,
    1 incorrect, a mastery percentage of 50 and an average response time of
    600 ms, whatever the timestamps of the attempts. *)
Theorem scenario_two_attempts_two_codes :
  forall (Date_parse : string -> Date) (t1 t2 : string),
    map Scenario.figures
      (computeMastery Date_parse
         [Scenario.attempt 1 true 500 t1; Scenario.attempt 2 false 700 t2]
         [Scenario.question])
    = [("A.1"%string, 2, 1, 1, 50%Q, Some 600);
       ("A.2"%string, 2, 1, 1, 50%Q, Some 600)].
Proof.
  intros Date_parse t1 t2. vm_compute. reflexivity.
Qed.

(* ------------------------------------------------------------------ *)
(** ** [RN] against the doubles of the kernel                          *)

(** The rounding of this file and the binary64 arithmetic of the kernel
    give the same [(c / t) * 100 * 10] for all [0 <= c <= t <= 100], and
    the same [m / 10] for all [0 <= m <= 1000]. *)
Lemma RN_agrees_with_binary64 : Binary64.agrees_upto 100 = true.
Proof. vm_compute. reflexivity. Qed.

(** In binary64, [(23 / 80) * 100 * 10] is just below 287.5 and
    [(23 / 80) * 1000] is 287.5. *)
Lemma scaled_ratio_23_80 :
  Binary64.to_Q (Binary64.scaled_ratio 23 80)
  = Some (5057753487769599 # 17592186044416)
  /\ Binary64.to_Q (PrimFloat.mul (Binary64.div 23 80) (Binary64.of_Z 1000))
     = Some (575 # 2)
  /\ js_mul (js_mul (js_div 23 80) 100) 10 = 5057753487769599 # 17592186044416
  /\ js_mul (js_div 23 80) 1000 = 575 # 2.
Proof. vm_compute. repeat split. Qed.

(* ------------------------------------------------------------------ *)
(** ** Where the code departs from the specification                   *)

(** C2 fails as stated. After 23 correct attempts out of 80 the record
    shows the double nearest to 28.7, while [round(23/80 * 1000) / 10] is
    28.8, be it evaluated exactly or in double arithmetic. *)
Lemma percentage_of_23_out_of_80 :
  exists r,
    In r (computeMastery IsoDate.parse Scenario.history_23_of_80 [Scenario.question_one])
    /\ Mastery.total_attempts r = 80
    /\ Mastery.correct_count r = 23
    /\ Mastery.mastery_percentage r = Scenario.double_28_7
    /\ spec_percentage_exact 23 80 = Scenario.double_28_8
    /\ spec_percentage_double 23 80 = Scenario.double_28_8
    /\ ~ (Mastery.mastery_percentage r
          == spec_percentage_exact (Mastery.correct_count r) (Mastery.total_attempts r))%Q
    /\ ~ (Mastery.mastery_percentage r
          == spec_percentage_double (Mastery.correct_count r) (Mastery.total_attempts r))%Q
    /\ ~ (Mastery.mastery_percentage r
          == inject_Z (Math_round (23 / 80 * 1000)) / 10)%Q.
Proof.
  exists Scenario.record_23_of_80.
  split; [vm_compute; left; reflexivity|].
  repeat split; try (vm_compute; reflexivity);
    intro H; vm_compute in H; discriminate H.
Qed.

(** C3 fails as stated. One attempt on a question whose code list holds
    "A.1" twice is counted twice for "A.1". *)
Lemma duplicate_code_counted_twice :
  map Scenario.figures
    (computeMastery IsoDate.parse
       [Scenario.attempt 1 true 500 "2024-03-01T09:00:00Z"]
       [Scenario.question_twice])
  = [("A.1"%string, 2, 2, 0, 100%Q, Some 500)]
  /\ times_of
       (masteryMap_of IsoDate.parse
          [Scenario.attempt 1 true 500 "2024-03-01T09:00:00Z"]
          [Scenario.question_twice]) "A.1"
     = [500; 500].
Proof. vm_compute. split; reflexivity. Qed.

(** C5 fails as stated. A latency of 0 is present and is not appended:
    the list stays empty and the average is null. *)
Lemma zero_latency_is_dropped :
  Practice.response_time_ms (Scenario.attempt 1 true 0 "2024-03-01T09:00:00Z") = Some 0
  /\ times_of
       (masteryMap_of IsoDate.parse
          [Scenario.attempt 1 true 0 "2024-03-01T09:00:00Z"]
          [Scenario.question_one]) "A.1"
     = []
  /\ map Scenario.figures
       (computeMastery IsoDate.parse
          [Scenario.attempt 1 true 0 "2024-03-01T09:00:00Z"]
          [Scenario.question_one])
     = [("A.1"%string, 1, 1, 0, 100%Q, None)].
Proof. vm_compute. repeat split; reflexivity. Qed.

(** C6 fails on the code. An attempt of a third question type is counted
    through its [reference_question_id] as soon as the catalog holds that
    question, here because an [on_the_fly] attempt had it fetched; alone,
    the same attempt has nothing fetched and is dropped. *)
Lemma other_question_type_is_counted :
  map Scenario.figures
    (mastery_route IsoDate.parse [Scenario.question_one]
       [Scenario.referring 1 "on_the_fly" "2024-03-01T09:00:00Z";
        Scenario.referring 2 "generated" "2024-03-02T09:00:00Z"])
  = [("A.1"%string, 2, 2, 0, 100%Q, Some 400)]
  /\ mastery_route IsoDate.parse [Scenario.question_one]
       [Scenario.referring 2 "generated" "2024-03-02T09:00:00Z"]
     = []
  /\ map Scenario.figures
       (computeMastery IsoDate.parse
          [Scenario.referring 2 "generated" "2024-03-02T09:00:00Z"]
          [Scenario.question_one])
     = [("A.1"%string, 1, 1, 0, 100%Q, Some 400)].
Proof. vm_compute. repeat split; reflexivity. Qed.

(** C7 fails as stated. A timestamp that does not parse raises nothing:
    the aggregation returns its records, and the unparsed string even
    stays in [last_attempted] although a later attempt parses. *)
Lemma malformed_timestamp_is_not_an_error :
  IsoDate.parse "not-a-date" = None
  /\ computeMastery IsoDate.parse
       [Scenario.attempt 1 true 500 "not-a-date";
        Scenario.attempt 2 false 700 "2024-03-01T09:05:00Z"]
       [Scenario.question_one]
     = [{| Mastery.standard_code := "A.1";
           Mastery.module_id := Some (IdNum 3);
           Mastery.topic_id := Some (IdNum 7);
           Mastery.total_attempts := 2;
           Mastery.correct_count := 1;
           Mastery.incorrect_count := 1;
           Mastery.mastery_percentage := 50;
           Mastery.avg_response_time_ms := Some 600;
           Mastery.last_attempted := "not-a-date" |}].
Proof. vm_compute. split; reflexivity. Qed.

(** C9 fails as stated. No variable of the environment is the allowed
    origin: an environment that sets every variable to another origin
    still gets ["http://localhost:8080"]. *)
Lemma cors_origin_ignores_environment :
  ~ exists name : string,
      forall (e : Config.env) (v : string),
        e name = Some v -> Config.origin (Config.cors e) = v.
Proof.
  intros [name H].
  specialize (H (fun _ => Some "https://dashboard.example.org"%string)
                "https://dashboard.example.org"%string eq_refl).
  discriminate H.
Qed.

(* ------------------------------------------------------------------ *)
(** ** The theorems at concrete inputs                                 *)

Lemma mastery_record_invariant_witness :
  In Scenario.record_two_zones
     (computeMastery IsoDate.parse Scenario.history_two_zones [Scenario.question_one])
  /\ Mastery.total_attempts Scenario.record_two_zones < 2 ^ 40
  /\ (2000 * Mastery.correct_count Scenario.record_two_zones
       + Mastery.total_attempts Scenario.record_two_zones)
      mod (2 * Mastery.total_attempts Scenario.record_two_zones) <> 0
  /\ Mastery.mastery_percentage Scenario.record_two_zones
     = spec_percentage_exact (Mastery.correct_count Scenario.record_two_zones)
         (Mastery.total_attempts Scenario.record_two_zones).
Proof.
  assert (Hin : In Scenario.record_two_zones
                  (computeMastery IsoDate.parse Scenario.history_two_zones
                     [Scenario.question_one]))
    by (vm_compute; left; reflexivity).
  assert (Hsmall : Mastery.total_attempts Scenario.record_two_zones < 2 ^ 40)
    by reflexivity.
  assert (Htie : (2000 * Mastery.correct_count Scenario.record_two_zones
                  + Mastery.total_attempts Scenario.record_two_zones)
                 mod (2 * Mastery.total_attempts Scenario.record_two_zones) <> 0)
    by (vm_compute; discriminate).
  split; [exact Hin|]. split; [exact Hsmall|]. split; [exact Htie|].
  exact (proj2 (proj2 (proj2 (proj2 (proj2 (proj2
           (@mastery_record_invariant IsoDate.parse Scenario.history_two_zones
              [Scenario.question_one] Scenario.record_two_zones Hin))))))
           Hsmall Htie).
Defined.

Lemma last_attempted_is_latest_witness :
  In Scenario.record_two_zones
     (computeMastery IsoDate.parse Scenario.history_two_zones [Scenario.question_one])
  /\ well_formed IsoDate.parse (questionsMap_of [Scenario.question_one])
       "A.1" Scenario.history_two_zones
  /\ exists p,
       latest IsoDate.parse (questionsMap_of [Scenario.question_one])
         "A.1" Scenario.history_two_zones p
       /\ Mastery.last_attempted Scenario.record_two_zones = Practice.created_at p.
Proof.
  assert (Hin : In Scenario.record_two_zones
                  (computeMastery IsoDate.parse Scenario.history_two_zones
                     [Scenario.question_one]))
    by (vm_compute; left; reflexivity).
  assert (Hwf : well_formed IsoDate.parse (questionsMap_of [Scenario.question_one])
                  "A.1" Scenario.history_two_zones).
  { intros p [<- | [<- | []]] _; vm_compute; discriminate. }
  split; [exact Hin|]. split; [exact Hwf|].
  exact (@last_attempted_is_latest IsoDate.parse Scenario.history_two_zones
           [Scenario.question_one] Scenario.record_two_zones Hin Hwf).
Defined.

Lemma average_of_collected_latencies_witness :
  In Scenario.record_23_of_80
     (computeMastery IsoDate.parse Scenario.history_23_of_80 [Scenario.question_one])
  /\ 0 <= sum (latencies (questionsMap_of [Scenario.question_one]) "A.1"
                 Scenario.history_23_of_80) < 2 ^ 52
  /\ Mastery.avg_response_time_ms Scenario.record_23_of_80 = Some 643
  /\ nearest_integer 643
       (sum (latencies (questionsMap_of [Scenario.question_one]) "A.1"
               Scenario.history_23_of_80))
       (Z.of_nat (List.length
          (latencies (questionsMap_of [Scenario.question_one]) "A.1"
             Scenario.history_23_of_80))).
Proof.
  assert (Hin : In Scenario.record_23_of_80
                  (computeMastery IsoDate.parse Scenario.history_23_of_80
                     [Scenario.question_one]))
    by (vm_compute; left; reflexivity).
  assert (Hsum : 0 <= sum (latencies (questionsMap_of [Scenario.question_one]) "A.1"
                             Scenario.history_23_of_80) < 2 ^ 52)
    by (split; [apply Z.leb_le | apply Z.ltb_lt]; vm_compute; reflexivity).
  split; [exact Hin|]. split; [exact Hsum|]. split; [reflexivity|].
  exact (proj2 (proj2 (proj2 (average_of_collected_latencies IsoDate.parse
                                Scenario.history_23_of_80 [Scenario.question_one])
                         Scenario.record_23_of_80 Hin))
           Hsum 643 eq_refl).
Defined.

Lemma timestamps_only_move_last_attempted_witness :
  IsoDate.parse (Practice.created_at (Scenario.attempt 1 true 500 "not-a-date")) = None
  /\ Acc.last_attempted
       (record_attempt IsoDate.parse (Scenario.attempt 1 true 500 "not-a-date")
          (new_mastery "A.1" (Scenario.attempt 2 false 700 "2024-03-01T09:05:00Z")
             Scenario.question_one))
     = "2024-03-01T09:05:00Z"%string.
Proof.
  assert (H : IsoDate.parse
                (Practice.created_at (Scenario.attempt 1 true 500 "not-a-date")) = None)
    by (vm_compute; reflexivity).
  split; [exact H|].
  exact (proj2 (timestamps_only_move_last_attempted IsoDate.parse [] [])
           (Scenario.attempt 1 true 500 "not-a-date")
           (new_mastery "A.1" (Scenario.attempt 2 false 700 "2024-03-01T09:05:00Z")
              Scenario.question_one)
           (or_introl H)).
Defined.

Lemma enrichment_null_safety_witness :
  nth_error [Scenario.orphan] 0 = Some Scenario.orphan
  /\ misses CModule.id Scenario.modules (Standard.module_id Scenario.orphan)
  /\ (exists e,
        nth_error (enrichStandardsWithRelations Scenario.modules Scenario.topics
                     [Scenario.orphan]) 0 = Some e
        /\ Enriched.module e = None)
  /\ Enriched.module
       (enrichedStandard Scenario.modules Scenario.topics Scenario.orphan) = None.
Proof.
  assert (Hmiss : misses CModule.id Scenario.modules
                    (Standard.module_id Scenario.orphan)).
  { intros row [<- | []]. reflexivity. }
  split; [reflexivity|]. split; [exact Hmiss|]. split.
  - destruct (proj1 (proj2 (enrichment_null_safety Scenario.modules Scenario.topics))
                [Scenario.orphan] 0%nat Scenario.orphan eq_refl)
      as [e (He & _ & Hm & _)].
    exists e. split; [exact He | exact (Hm Hmiss)].
  - exact (proj1 (proj2 (proj2 (enrichment_null_safety Scenario.modules Scenario.topics))
                    Scenario.orphan) Hmiss).
Defined.

Lemma cors_origin_is_fixed_witness :
  Scenario.environment "PORT"%string = Some "8081"%string
  /\ Scenario.environment "API_PREFIX"%string = None
  /\ Config.origin (Config.cors Scenario.environment) = "http://localhost:8080"%string
  /\ Config.PORT Scenario.environment = Config.PortString "8081"
  /\ Config.API_PREFIX Scenario.environment = "/api/v1"%string.
Proof.
  destruct (cors_origin_is_fixed Scenario.environment) as (Ho & Hp & _ & _ & Hx).
  split; [reflexivity|]. split; [reflexivity|]. split; [exact Ho|]. split.
  - apply Hp; [reflexivity | discriminate].
  - apply Hx. reflexivity.
Defined.

(* ================================================================== *)
(** * Further properties of the code                                   *)

(* ------------------------------------------------------------------ *)
(** ** Distinct elements in order of first occurrence                  *)

Section Unique.
Variable A : Type.
Variable eqb : A -> A -> bool.
Hypothesis eqb_eq : forall a b, eqb a b = true <-> a = b.

Lemma existsb_eqb_In : forall x l, existsb (eqb x) l = true <-> In x l.
Proof.
  intros x l. rewrite existsb_exists. split.
  - intros [y [Hin Hy]]. apply eqb_eq in Hy. subst y. exact Hin.
  - intro Hin. exists x. split; [exact Hin | apply eqb_eq; reflexivity].
Qed.

Lemma see_In : forall seen x y, In y (see eqb seen x) <-> In y seen \/ y = x.
Proof.
  intros seen x y. unfold see.
  destruct (existsb (eqb x) seen) eqn:E.
  - apply existsb_eqb_In in E. split; [tauto | intros [H | ->]; assumption].
  - rewrite in_app_iff. simpl. split.
    + intros [H | [H | []]]; [left; exact H | right; symmetry; exact H].
    + intros [H | H]; [left; exact H | right; left; symmetry; exact H].
Qed.

Lemma see_NoDup : forall seen x, NoDup seen -> NoDup (see eqb seen x).
Proof.
  intros seen x H. unfold see.
  destruct (existsb (eqb x) seen) eqn:E; [exact H|].
  apply NoDup_app; [exact H | repeat constructor; simpl; tauto |].
  intros y Hy [<- | []].
  apply existsb_eqb_In in Hy. congruence.
Qed.

Lemma fold_see_In : forall xs seen y,
  In y (fold_left (see eqb) xs seen) <-> In y seen \/ In y xs.
Proof.
  induction xs as [|x xs IH]; intros seen y; simpl.
  - tauto.
  - rewrite IH, see_In. split; intros H; repeat destruct H as [H | H]; auto.
Qed.

Lemma fold_see_NoDup : forall xs seen,
  NoDup seen -> NoDup (fold_left (see eqb) xs seen).
Proof.
  induction xs as [|x xs IH]; intros seen H; simpl; [exact H|].
  apply IH. apply see_NoDup. exact H.
Qed.

Lemma unique_In : forall xs y, In y (unique eqb xs) <-> In y xs.
Proof.
  intros xs y. unfold unique. change (fun seen x => if existsb (eqb x) seen then seen else seen ++ [x])
    with (see eqb). rewrite fold_see_In. simpl. tauto.
Qed.

Lemma unique_NoDup : forall xs, NoDup (unique eqb xs).
Proof.
  intro xs. unfold unique. change (fun seen x => if existsb (eqb x) seen then seen else seen ++ [x])
    with (see eqb). apply fold_see_NoDup. constructor.
Qed.
End Unique.

Lemma has_keys : forall (K V : Type) (eqb : K -> K -> bool) (m : JSMap.t K V) k,
  JSMap.has eqb m k = existsb (eqb k) (JSMap.keys m).
Proof.
  intros K V eqb m k. unfold JSMap.has.
  induction m as [|[k' v] m IH]; simpl; [reflexivity|].
  destruct (eqb k k'); [reflexivity | exact IH].
Qed.

(* ------------------------------------------------------------------ *)
(** ** The order of the payload                                        *)

Section Order.
Variable Date_parse : string -> Date.
Variable questionsMap : JSMap.t Id Question.t.

Lemma keys_process_code : forall p q m code,
  JSMap.keys (process_code Date_parse p q m code)
  = see String.eqb (JSMap.keys m) code.
Proof.
  intros p q m code. rewrite process_code_set.
  rewrite keys_set, has_keys. reflexivity.
Qed.

Lemma keys_fold_codes : forall p q codes m,
  JSMap.keys (fold_left (process_code Date_parse p q) codes m)
  = fold_left (see String.eqb) codes (JSMap.keys m).
Proof.
  intros p q codes. induction codes as [|c codes IH]; intro m; simpl; [reflexivity|].
  rewrite IH, keys_process_code. reflexivity.
Qed.

Lemma keys_process_practice : forall m p,
  JSMap.keys (process_practice Date_parse questionsMap m p)
  = fold_left (see String.eqb) (codes_of questionsMap p) (JSMap.keys m).
Proof.
  intros m p. unfold process_practice, codes_of.
  destruct (question_of questionsMap p) as [q|]; [|reflexivity].
  destruct (Question.ny_standards_codes q) as [codes|]; [|reflexivity].
  apply keys_fold_codes.
Qed.

Lemma keys_fold_practice : forall ps m,
  JSMap.keys (fold_left (process_practice Date_parse questionsMap) ps m)
  = fold_left (see String.eqb) (flat_map (codes_of questionsMap) ps) (JSMap.keys m).
Proof.
  induction ps as [|p ps IH]; intro m; simpl; [reflexivity|].
  rewrite IH, keys_process_practice, fold_left_app. reflexivity.
Qed.
End Order.

(** X1. The records of the payload come in the order in which their
    codes are first met when the history is read from its first attempt
    on, each attempt giving the codes of its question in the order of the
    code list. *)
Theorem payload_in_first_seen_order :
  forall (Date_parse : string -> Date) (practiceHistory : list Practice.t)
         (questions : list Question.t),
    map Mastery.standard_code (computeMastery Date_parse practiceHistory questions)
    = unique String.eqb
        (flat_map (codes_of (questionsMap_of questions)) practiceHistory).
Proof.
  intros Date_parse ps questions.
  rewrite codes_computeMastery. unfold masteryMap_of.
  rewrite keys_fold_practice. reflexivity.
Qed.

(* ------------------------------------------------------------------ *)
(** ** The counters in closed form                                     *)

Section Counters.
Variable Date_parse : string -> Date.
Variable questionsMap : JSMap.t Id Question.t.

Local Notation "'acc'" := (acc_of Date_parse questionsMap).

Lemma visits_if_snoc : forall f code ps p,
  visits_if questionsMap f code (ps ++ [p])
  = visits_if questionsMap f code ps
    + (if f p then Z.of_nat (occurrences questionsMap code p) else 0).
Proof.
  intros f code ps p. unfold visits_if.
  induction ps as [|p0 ps IH]; simpl; [lia | rewrite IH; lia].
Qed.

(** The counters of a code are the visits by all attempts, by the
    correct ones and by the incorrect ones. *)
Lemma acc_counters : forall code ps,
  o_total (acc code ps) = visits_if questionsMap (fun _ => true) code ps
  /\ o_correct (acc code ps) = visits_if questionsMap Practice.correct code ps
  /\ o_incorrect (acc code ps)
     = visits_if questionsMap (fun p => negb (Practice.correct p)) code ps.
Proof.
  intros code ps. induction ps as [|p ps (IH1 & IH2 & IH3)] using rev_ind.
  - repeat split.
  - destruct (acc_snoc_figures Date_parse questionsMap code ps p) as (F1 & F2 & F3 & _).
    rewrite F1, F2, F3, !visits_if_snoc, IH1, IH2, IH3.
    destruct (Practice.correct p); simpl; repeat split; lia.
Qed.

(** With a code list free of duplicates an attempt visits a code once
    or not at all. *)
Lemma occurrences_NoDup : forall code p,
  NoDup (codes_of questionsMap p) ->
  Z.of_nat (occurrences questionsMap code p)
  = if contributes questionsMap code p then 1 else 0.
Proof.
  intros code p Hnd. unfold occurrences.
  destruct (contributes questionsMap code p) eqn:Hc.
  - apply occurrences_contributes in Hc. unfold occurrences in Hc.
    pose proof (proj1 (NoDup_count_occ string_dec _) Hnd code). lia.
  - destruct (count_occ string_dec (codes_of questionsMap p) code) eqn:E; [reflexivity|].
    assert (contributes questionsMap code p = true)
      by (apply occurrences_contributes; unfold occurrences; lia).
    congruence.
Qed.

Lemma visits_if_NoDup : forall f code ps,
  (forall p, In p ps -> NoDup (codes_of questionsMap p)) ->
  visits_if questionsMap f code ps
  = Z.of_nat (List.length
      (filter (fun p => contributes questionsMap code p && f p) ps)).
Proof.
  intros f code ps. induction ps as [|p ps IH]; intro Hnd; [reflexivity|].
  change (visits_if questionsMap f code (p :: ps))
    with ((if f p then Z.of_nat (occurrences questionsMap code p) else 0)
          + visits_if questionsMap f code ps).
  rewrite IH by (intros p' Hin; apply Hnd; right; exact Hin).
  rewrite (occurrences_NoDup code p) by (apply Hnd; left; reflexivity).
  cbn [filter].
  destruct (contributes questionsMap code p), (f p);
    cbn [andb List.length]; rewrite ?Nat2Z.inj_succ; lia.
Qed.
End Counters.

(** X2. When no question lists a code twice, the record of a code
    counts the attempts that contribute to the code: [total_attempts] is
    their number, [correct_count] the number of the correct ones and
    [incorrect_count] the number of the others. *)
Theorem counts_are_numbers_of_attempts :
  forall (Date_parse : string -> Date) (practiceHistory : list Practice.t)
         (questions : list Question.t) (r : Mastery.t),
    (forall p, In p practiceHistory ->
       NoDup (codes_of (questionsMap_of questions) p)) ->
    In r (computeMastery Date_parse practiceHistory questions) ->
    let hits f :=
      Z.of_nat (List.length
        (filter (fun p => contributes (questionsMap_of questions)
                            (Mastery.standard_code r) p && f p)
           practiceHistory)) in
    Mastery.total_attempts r = hits (fun _ => true)
    /\ Mastery.correct_count r = hits Practice.correct
    /\ Mastery.incorrect_count r = hits (fun p => negb (Practice.correct p)).
Proof.
  intros Date_parse ps questions r Hnd Hin hits. unfold hits.
  apply in_computeMastery in Hin. destruct Hin as [a [Ha Hr]].
  destruct (acc_counters Date_parse (questionsMap_of questions)
              (Mastery.standard_code r) ps) as (C1 & C2 & C3).
  rewrite Ha in C1, C2, C3. cbn [o_total o_correct o_incorrect] in C1, C2, C3.
  rewrite <- !(visits_if_NoDup _ _ _ _ Hnd), <- C1, <- C2, <- C3.
  rewrite Hr. repeat split.
Qed.

(* ------------------------------------------------------------------ *)
(** ** Conservation of observations                                    *)

Section Conservation.
Variable questionsMap : JSMap.t Id Question.t.

Lemma count_occ_sum_cons : forall (keys : list string) x xs,
  NoDup keys ->
  fold_right (fun k n => Z.of_nat (count_occ string_dec (x :: xs) k) + n) 0 keys
  = (if existsb (String.eqb x) keys then 1 else 0)
    + fold_right (fun k n => Z.of_nat (count_occ string_dec xs k) + n) 0 keys.
Proof.
  intros keys x xs. induction keys as [|k keys IH]; intro Hnd; [reflexivity|].
  inversion Hnd as [|? ? Hnotin Hnd']; subst.
  cbn [fold_right existsb]. rewrite (IH Hnd').
  destruct (string_dec x k) as [-> | Hne].
  - rewrite count_occ_cons_eq by reflexivity. rewrite String.eqb_refl.
    destruct (existsb (String.eqb k) keys) eqn:E.
    + exfalso. apply Hnotin. apply existsb_exists in E.
      destruct E as [y [Hy Heq]]. apply String.eqb_eq in Heq. subst y. exact Hy.
    + cbn [orb]. rewrite Nat2Z.inj_succ. lia.
  - rewrite count_occ_cons_neq by exact Hne.
    replace (String.eqb x k) with false
      by (symmetry; apply String.eqb_neq; exact Hne).
    cbn [orb]. lia.
Qed.

(** Over duplicate-free keys that cover a list, the occurrences of the
    keys add up to the length of the list. *)
Lemma count_occ_sum : forall (keys xs : list string),
  NoDup keys -> incl xs keys ->
  fold_right (fun k n => Z.of_nat (count_occ string_dec xs k) + n) 0 keys
  = Z.of_nat (List.length xs).
Proof.
  intros keys xs Hnd. induction xs as [|x xs IH]; intro Hincl.
  - clear Hnd Hincl. induction keys as [|k keys IHk]; [reflexivity|].
    cbn [fold_right]. rewrite IHk. reflexivity.
  - rewrite (count_occ_sum_cons x xs Hnd).
    rewrite IH by (intros y Hy; apply Hincl; right; exact Hy).
    replace (existsb (String.eqb x) keys) with true.
    + cbn [List.length]. rewrite Nat2Z.inj_succ. lia.
    + symmetry. apply existsb_exists. exists x.
      split; [apply Hincl; left; reflexivity | apply String.eqb_refl].
Qed.

Lemma visits_cons : forall code p ps,
  visits questionsMap code (p :: ps)
  = Z.of_nat (occurrences questionsMap code p) + visits questionsMap code ps.
Proof. reflexivity. Qed.

Lemma visits_sum : forall (keys : list string) ps,
  NoDup keys ->
  (forall p, In p ps -> incl (codes_of questionsMap p) keys) ->
  fold_right (fun k n => visits questionsMap k ps + n) 0 keys
  = observations questionsMap ps.
Proof.
  intros keys ps Hnd. induction ps as [|p ps IH]; intro Hincl.
  - clear Hnd Hincl. induction keys as [|k keys IHk]; [reflexivity|].
    cbn [fold_right]. rewrite IHk. reflexivity.
  - unfold observations. cbn [fold_right]. fold (observations questionsMap ps).
    rewrite <- IH by (intros p' Hin; apply Hincl; right; exact Hin).
    rewrite <- (count_occ_sum Hnd (Hincl p (or_introl eq_refl))).
    clear IH Hnd Hincl.
    induction keys as [|k keys IHk]; [reflexivity|].
    cbn [fold_right]. rewrite IHk, visits_cons. unfold occurrences. lia.
Qed.
End Conservation.

(** X3. The attempts counted over all records are the observations made:
    the sum of [total_attempts] over the payload is the sum, over the
    attempts of the history, of the length of the code list the attempt
    resolves to (0 for an attempt that is skipped). *)
Theorem observations_are_conserved :
  forall (Date_parse : string -> Date) (practiceHistory : list Practice.t)
         (questions : list Question.t),
    sum_totals (computeMastery Date_parse practiceHistory questions)
    = observations (questionsMap_of questions) practiceHistory.
Proof.
  intros Date_parse ps questions.
  set (qm := questionsMap_of questions).
  set (m := masteryMap_of Date_parse ps questions).
  assert (Hnd : NoDup (JSMap.keys m)) by apply NoDup_keys_masteryMap_of.
  assert (Htot : sum_totals (computeMastery Date_parse ps questions)
                 = fold_right (fun k n => visits qm k ps + n) 0 (JSMap.keys m)).
  { unfold computeMastery, JSMap.values, JSMap.keys, sum_totals. fold m.
    assert (Hall : forall k a, In (k, a) m -> Acc.total_attempts a = visits qm k ps).
    { intros k a Hin. apply in_masteryMap_of in Hin.
      destruct (acc_total_visits Date_parse qm k ps) as [Hv _].
      fold qm in Hin. rewrite Hin in Hv. exact Hv. }
    clearbody m. induction m as [|[k a] m IH]; [reflexivity|].
    cbn [map fold_right fst snd finalize Mastery.total_attempts].
    rewrite (Hall k a (or_introl eq_refl)).
    rewrite IH; [reflexivity | | ].
    - inversion Hnd; assumption.
    - intros k' a' Hin. apply Hall. right. exact Hin. }
  rewrite Htot. apply visits_sum; [exact Hnd|].
  intros p Hp code Hcode.
  assert (Hc : contributes qm code p = true).
  { unfold contributes. apply existsb_exists. exists code.
    split; [exact Hcode | apply String.eqb_refl]. }
  assert (Hsome : acc_of Date_parse qm code ps <> None).
  { apply acc_present. exists p. split; assumption. }
  destruct (acc_of Date_parse qm code ps) as [a|] eqn:Ha; [|congruence].
  apply (get_In_keys String.eqb String.eqb_eq) with (v := a).
  unfold m. rewrite get_masteryMap_of. exact Ha.
Qed.

(* ------------------------------------------------------------------ *)
(** ** What a record keeps of the attempts                             *)

Section Origins.
Variable Date_parse : string -> Date.
Variable questionsMap : JSMap.t Id Question.t.

Local Notation "'acc'" := (acc_of Date_parse questionsMap).

Lemma acc_last_attempted_origin : forall code ps a,
  acc code ps = Some a ->
  exists p, In p ps /\ contributes questionsMap code p = true
            /\ Acc.last_attempted a = Practice.created_at p.
Proof.
  intros code ps.
  apply (acc_of_invariant Date_parse questionsMap code
    (fun ps o => forall a, o = Some a ->
       exists p, In p ps /\ contributes questionsMap code p = true
                 /\ Acc.last_attempted a = Practice.created_at p)).
  - discriminate.
  - intros ps0 p o IH _ a Ha. destruct (IH a Ha) as [p0 (Hin & Hc & Hl)].
    exists p0. split; [apply in_or_app; left; exact Hin | split; assumption].
  - intros ps0 p q o IH Hc _ a Ha. inversion Ha; subst a; clear Ha.
    rewrite observe_last_attempted. cbv zeta.
    assert (Hp : In p (ps0 ++ [p])) by (apply in_or_app; right; left; reflexivity).
    destruct (date_gt (Date_parse (Practice.created_at p)) _).
    + exists p. repeat split; assumption.
    + destruct o as [a0|].
      * destruct (IH a0 eq_refl) as [p0 (Hin & Hc0 & Hl)].
        exists p0. split; [apply in_or_app; left; exact Hin | split; assumption].
      * exists p. repeat split; assumption.
  - intros ps0 p q a0 IH Hc _ a Ha. inversion Ha; subst a; clear Ha.
    rewrite observe_last_attempted. cbv zeta.
    destruct (date_gt (Date_parse (Practice.created_at p)) _).
    + exists p. split; [apply in_or_app; right; left; reflexivity|].
      split; [exact Hc | reflexivity].
    + apply IH. reflexivity.
Qed.

Lemma find_snoc : forall (f : Practice.t -> bool) ps p,
  find f (ps ++ [p])
  = match find f ps with
    | Some x => Some x
    | None => if f p then Some p else None
    end.
Proof.
  intros f ps p. induction ps as [|p0 ps IH]; simpl; [reflexivity|].
  destruct (f p0); [reflexivity | exact IH].
Qed.

Lemma observe_placement : forall code p q o,
  Acc.module_id (observe Date_parse code p q o)
  = match o with
    | Some a => Acc.module_id a
    | None => or_id (Practice.module_id p) (Question.module_id q)
    end
  /\ Acc.topic_id (observe Date_parse code p q o)
     = match o with
       | Some a => Acc.topic_id a
       | None => or_id (Practice.topic_id p) (Question.topic_id q)
       end.
Proof. intros code p q [a|]; split; reflexivity. Qed.

Lemma acc_placement : forall code ps a,
  acc code ps = Some a ->
  exists p q,
    first_contributing questionsMap code ps = Some p
    /\ question_of questionsMap p = Some q
    /\ Acc.module_id a = or_id (Practice.module_id p) (Question.module_id q)
    /\ Acc.topic_id a = or_id (Practice.topic_id p) (Question.topic_id q).
Proof.
  intros code ps. unfold first_contributing.
  apply (acc_of_invariant Date_parse questionsMap code
    (fun ps o =>
       (o = None -> find (contributes questionsMap code) ps = None)
       /\ forall a, o = Some a ->
            exists p q,
              find (contributes questionsMap code) ps = Some p
              /\ question_of questionsMap p = Some q
              /\ Acc.module_id a = or_id (Practice.module_id p) (Question.module_id q)
              /\ Acc.topic_id a = or_id (Practice.topic_id p) (Question.topic_id q))).
  - split; [reflexivity | discriminate].
  - intros ps0 p o [IHn IHs] Hc. rewrite find_snoc, Hc. split.
    + intro Ho. rewrite (IHn Ho). reflexivity.
    + intros a Ha. destruct (IHs a Ha) as [p0 [q0 (Hf & Hq & Hm & Ht)]].
      exists p0, q0. rewrite Hf. repeat split; assumption.
  - intros ps0 p q o [IHn IHs] Hc Hq. split; [discriminate|].
    intros a Ha. inversion Ha; subst a; clear Ha.
    destruct (observe_placement code p q o) as [Em Et]. rewrite Em, Et.
    rewrite find_snoc, Hc. destruct o as [a0|].
    + destruct (IHs a0 eq_refl) as [p0 [q0 (Hf & Hq0 & Hm & Ht)]].
      exists p0, q0. rewrite Hf. repeat split; assumption.
    + rewrite (IHn eq_refl). exists p, q. repeat split; assumption.
  - intros ps0 p q a0 [_ IHs] Hc Hq. split; [discriminate|].
    intros a Ha. inversion Ha; subst a; clear Ha.
    destruct (observe_placement code p q (Some a0)) as [Em Et]. rewrite Em, Et.
    apply IHs. reflexivity.
Qed.
End Origins.

(** X4. The [last_attempted] of a record is always the [created_at] of
    an attempt that contributes to the record's code, whether or not the
    timestamps parse. *)
Theorem last_attempted_is_a_contributing_timestamp :
  forall (Date_parse : string -> Date) (practiceHistory : list Practice.t)
         (questions : list Question.t) (r : Mastery.t),
    In r (computeMastery Date_parse practiceHistory questions) ->
    exists p,
      In p practiceHistory
      /\ contributes (questionsMap_of questions) (Mastery.standard_code r) p = true
      /\ Mastery.last_attempted r = Practice.created_at p.
Proof.
  intros Date_parse ps questions r Hin.
  apply in_computeMastery in Hin. destruct Hin as [a [Ha Hr]].
  destruct (acc_last_attempted_origin _ _ _ _ Ha) as [p (Hp & Hc & Hl)].
  exists p. split; [exact Hp|]. split; [exact Hc|]. rewrite Hr. exact Hl.
Qed.

(** X5. The [module_id] and [topic_id] of a record are fixed by the
    first attempt of the history that contributes to the record's code:
    the attempt's own value when it is truthy, the value of the attempt's
    question otherwise.  Later attempts never change them. *)
Theorem placement_comes_from_first_attempt :
  forall (Date_parse : string -> Date) (practiceHistory : list Practice.t)
         (questions : list Question.t) (r : Mastery.t),
    In r (computeMastery Date_parse practiceHistory questions) ->
    exists p q,
      first_contributing (questionsMap_of questions) (Mastery.standard_code r)
        practiceHistory = Some p
      /\ question_of (questionsMap_of questions) p = Some q
      /\ Mastery.module_id r = or_id (Practice.module_id p) (Question.module_id q)
      /\ Mastery.topic_id r = or_id (Practice.topic_id p) (Question.topic_id q).
Proof.
  intros Date_parse ps questions r Hin.
  apply in_computeMastery in Hin. destruct Hin as [a [Ha Hr]].
  destruct (acc_placement _ _ _ _ Ha) as [p [q (Hf & Hq & Hm & Ht)]].
  exists p, q. split; [exact Hf|]. split; [exact Hq|].
  rewrite Hr. split; assumption.
Qed.

(* ------------------------------------------------------------------ *)
(** ** The average and the percentage at their edges                   *)

Lemma fold_left_add_acc : forall xs a, fold_left Z.add xs a = a + sum xs.
Proof.
  unfold sum. induction xs as [|x xs IH]; intro a; simpl; [lia|].
  rewrite IH, (IH x). lia.
Qed.

Lemma sum_cons : forall x xs, sum (x :: xs) = x + sum xs.
Proof. intros x xs. unfold sum at 1. simpl. apply fold_left_add_acc. Qed.

Lemma sum_between : forall xs lo hi,
  (forall x, In x xs -> lo <= x <= hi) ->
  lo * Z.of_nat (List.length xs) <= sum xs <= hi * Z.of_nat (List.length xs).
Proof.
  induction xs as [|x xs IH]; intros lo hi H.
  - unfold sum. simpl. lia.
  - rewrite sum_cons. cbn [List.length]. rewrite Nat2Z.inj_succ.
    specialize (IH lo hi (fun y Hy => H y (or_intror Hy))).
    pose proof (H x (or_introl eq_refl)). lia.
Qed.

(** The average of a record is the average of the latencies collected
    for its code. *)
Lemma avg_computeMastery :
  forall (Date_parse : string -> Date) ps questions r,
    In r (computeMastery Date_parse ps questions) ->
    Mastery.avg_response_time_ms r
    = average (latencies (questionsMap_of questions) (Mastery.standard_code r) ps).
Proof.
  intros Date_parse ps questions r Hin.
  apply in_computeMastery in Hin. destruct Hin as [a [Ha Hr]].
  destruct (acc_total_visits Date_parse (questionsMap_of questions)
              (Mastery.standard_code r) ps) as [_ Htimes].
  rewrite Ha in Htimes. cbn [o_times] in Htimes.
  rewrite <- Htimes, Hr. reflexivity.
Qed.

(** X6. The average response time of a record lies between the
    smallest and the largest latency collected for its code (for a sum of
    latencies in [0, 2^52)). *)
Theorem average_lies_between_extremes :
  forall (Date_parse : string -> Date) (practiceHistory : list Practice.t)
         (questions : list Question.t) (r : Mastery.t) (n lo hi : Z),
    In r (computeMastery Date_parse practiceHistory questions) ->
    let collected :=
      latencies (questionsMap_of questions) (Mastery.standard_code r)
        practiceHistory in
    0 <= sum collected < 2 ^ 52 ->
    (forall x, In x collected -> lo <= x <= hi) ->
    Mastery.avg_response_time_ms r = Some n ->
    lo <= n <= hi.
Proof.
  intros Date_parse ps questions r n lo hi Hin collected Hsum Hrange Hn.
  rewrite (avg_computeMastery _ _ _ _ Hin) in Hn. fold collected in Hn.
  unfold average in Hn.
  destruct (0 <? List.length collected)%nat eqn:Hlen; [|discriminate].
  apply Nat.ltb_lt in Hlen. injection Hn as Hn'.
  assert (Hl : 0 < Z.of_nat (List.length collected)) by lia.
  pose proof (Math_round_quotient Hsum Hl) as Hnear.
  fold (sum collected) in Hn'. rewrite Hn' in Hnear.
  unfold nearest_integer in Hnear.
  pose proof (@sum_between collected lo hi Hrange) as Hb.
  set (l := Z.of_nat (List.length collected)) in *.
  set (s := sum collected) in *.
  split.
  - destruct (Z_lt_le_dec n lo) as [Hlt|Hge]; [exfalso | lia].
    assert ((2 * n + 1) * l <= (2 * lo - 1) * l)
      by (apply Z.mul_le_mono_nonneg_r; lia).
    lia.
  - destruct (Z_lt_le_dec hi n) as [Hlt|Hge]; [exfalso | lia].
    assert ((2 * hi + 1) * l <= (2 * n - 1) * l)
      by (apply Z.mul_le_mono_nonneg_r; lia).
    lia.
Qed.

Lemma RN_pos_diag : forall n, 0 < n -> RN_pos n n = 1%Q.
Proof.
  intros n Hn. unfold RN_pos, binade.
  rewrite Z.sub_diag. change (Z.max 0 0) with 0. change (Z.max 0 (- 0)) with 0.
  rewrite Z.leb_refl. change (0 <=? 0 - 52) with false. cbv iota.
  change (- (0 - 52)) with 52.
  unfold round_half_even.
  rewrite (Z.mul_comm n (2 ^ 52)), Z.div_mul, Z.mod_mul by lia.
  change (2 * 0) with 0.
  replace (0 ?= n) with Lt by (symmetry; apply Z.compare_lt_iff; exact Hn).
  vm_compute. reflexivity.
Qed.

Lemma percentage_all : forall t, 1 <= t -> percentage t t = 100%Q.
Proof.
  intros t Ht. unfold percentage.
  replace (0 <? t) with true by (symmetry; apply Z.ltb_lt; lia).
  destruct t as [|p|p]; try lia.
  assert (E : js_div (inject_Z (Zpos p)) (inject_Z (Zpos p)) = 1%Q).
  { unfold js_div, RN. cbn [Qnum Qden Qdiv Qmult Qinv inject_Z].
    rewrite Z.mul_1_r, Pos.mul_1_l. apply RN_pos_diag. reflexivity. }
  rewrite E. vm_compute. reflexivity.
Qed.

Lemma percentage_none : forall t, 1 <= t -> percentage 0 t = 0%Q.
Proof.
  intros t Ht. unfold percentage.
  replace (0 <? t) with true by (symmetry; apply Z.ltb_lt; lia).
  assert (E : js_div (inject_Z 0) (inject_Z t) = 0%Q) by reflexivity.
  rewrite E. vm_compute. reflexivity.
Qed.

(** X7. A record without incorrect attempts shows a mastery of exactly
    100, a record without correct attempts a mastery of exactly 0. *)
Theorem mastery_at_the_extremes :
  forall (Date_parse : string -> Date) (practiceHistory : list Practice.t)
         (questions : list Question.t) (r : Mastery.t),
    In r (computeMastery Date_parse practiceHistory questions) ->
    (Mastery.incorrect_count r = 0 -> Mastery.mastery_percentage r = 100%Q)
    /\ (Mastery.correct_count r = 0 -> Mastery.mastery_percentage r = 0%Q).
Proof.
  intros Date_parse ps questions r Hin.
  apply in_computeMastery in Hin. destruct Hin as [a [Ha ->]].
  destruct (acc_sound _ _ _ _ Ha) as (_ & Hsum & Hpos & _ & _).
  cbn [finalize Mastery.incorrect_count Mastery.correct_count
       Mastery.mastery_percentage].
  split; intro H.
  - replace (Acc.correct_count a) with (Acc.total_attempts a) by lia.
    apply percentage_all. exact Hpos.
  - rewrite H. apply percentage_none. exact Hpos.
Qed.

(* ------------------------------------------------------------------ *)
(** ** The order of the history                                        *)

Section Reordering.
Variable questionsMap : JSMap.t Id Question.t.




End Reordering.


(* ------------------------------------------------------------------ *)
(** ** Looking rows up by identifier                                   *)

Section Lookup.
Variable Row : Type.
Variable row_id : Row -> Id.

Local Notation "'entries'" := (map (fun r => (row_id r, r))).

Lemma get_of_entries_snoc : forall (es : list (Id * Row)) k' v k,
  JSMap.get Id_eqb (JSMap.of_entries Id_eqb (es ++ [(k', v)])) k
  = if Id_eqb k' k then Some v else JSMap.get Id_eqb (JSMap.of_entries Id_eqb es) k.
Proof.
  intros es k' v k. unfold JSMap.of_entries. rewrite fold_left_app. simpl.
  destruct (Id_eqb k' k) eqn:E.
  - apply Id_eqb_eq in E. subst k'. apply (get_set_same Id_eqb Id_eqb_eq).
  - apply (get_set_other Id_eqb Id_eqb_eq). intro H. subst k'.
    rewrite (proj2 (Id_eqb_eq k k) eq_refl) in E. discriminate.
Qed.

(** Restricting a table to a list of identifiers does not change what
    is found under an identifier of the list. *)
Lemma get_select_in : forall table ids k,
  In (Some k) ids ->
  JSMap.get Id_eqb (lookup_of row_id (Gateway.select_in row_id table ids)) k
  = JSMap.get Id_eqb (JSMap.of_entries Id_eqb (entries table)) k.
Proof.
  intros table ids k Hk. unfold lookup_of. cbn [Gateway.select_in Response.data].
  induction table as [|row table IH] using rev_ind; [reflexivity|].
  rewrite filter_app, !map_app. cbn [filter map].
  rewrite get_of_entries_snoc.
  destruct (Id_eqb (row_id row) k) eqn:E.
  - assert (Hkeep : existsb (fun key => Gateway.matches row_id key row) ids = true).
    { apply existsb_exists. exists (Some k). split; [exact Hk | exact E]. }
    rewrite Hkeep. cbn [map]. rewrite get_of_entries_snoc, E. reflexivity.
  - destruct (existsb (fun key => Gateway.matches row_id key row) ids).
    + cbn [map]. rewrite get_of_entries_snoc, E. exact IH.
    + cbn [map]. rewrite app_nil_r. exact IH.
Qed.

(** With distinct identifiers, the lookup built from a table finds the
    one row [.eq(...).single()] resolves to. *)
Lemma get_single : forall table k,
  NoDup (map row_id table) ->
  JSMap.get Id_eqb (JSMap.of_entries Id_eqb (entries table)) k
  = Response.data (Gateway.select_eq_single row_id table (Some k)).
Proof.
  intros table k. unfold Gateway.select_eq_single.
  induction table as [|row table IH] using rev_ind; intro Hnd; [reflexivity|].
  rewrite map_app in Hnd. cbn [map] in Hnd.
  assert (Hnd' : NoDup (map row_id table)) by (eapply NoDup_app_remove_r; exact Hnd).
  assert (Hfresh : ~ In (row_id row) (map row_id table)).
  { intro H. apply (NoDup_remove_2 _ _ _ Hnd). rewrite app_nil_r. exact H. }
  rewrite map_app. cbn [map]. rewrite get_of_entries_snoc.
  rewrite filter_app. cbn [filter Gateway.matches].
  destruct (Id_eqb (row_id row) k) eqn:E.
  - apply Id_eqb_eq in E.
    assert (Hnone : filter (Gateway.matches row_id (Some k)) table = []).
    { clear IH Hnd Hnd'. induction table as [|r0 table IHt]; [reflexivity|].
      cbn [filter Gateway.matches].
      destruct (Id_eqb (row_id r0) k) eqn:E0.
      - exfalso. apply Hfresh. left. apply Id_eqb_eq in E0. congruence.
      - apply IHt. intro H. apply Hfresh. right. exact H. }
    rewrite Hnone. reflexivity.
  - rewrite app_nil_r. apply IH. exact Hnd'.
Qed.
End Lookup.

Lemma option_Id_eqb_eq : forall a b, option_Id_eqb a b = true <-> a = b.
Proof.
  intros [a|] [b|]; simpl; split; intro H; try discriminate; try reflexivity.
  - apply Id_eqb_eq in H. congruence.
  - inversion H. apply Id_eqb_eq. reflexivity.
Qed.

(* ------------------------------------------------------------------ *)
(** ** The questions the route fetches                                 *)

Lemma allQuestionIds_In : forall (ps : list Practice.t) key,
  In key (allQuestionIds ps)
  <-> truthy_id key = true
      /\ exists p,
           In p ps
           /\ ((Practice.question_type p = Some "saved"%string
                /\ Practice.question_id p = key)
               \/ (Practice.question_type p = Some "on_the_fly"%string
                   /\ Practice.reference_question_id p = key)).
Proof.
  intros ps key. unfold allQuestionIds.
  rewrite (unique_In option_Id_eqb option_Id_eqb_eq), in_app_iff.
  unfold savedQuestionIds, referenceQuestionIds.
  rewrite !in_map_iff. split.
  - intros [[p [Hk Hin]] | [p [Hk Hin]]]; apply filter_In in Hin;
      destruct Hin as [Hin Hf];
      destruct (Practice.question_type p) as [ty|] eqn:Hty; try discriminate;
      apply andb_true_iff in Hf; destruct Hf as [Hty' Htr];
      apply String.eqb_eq in Hty'; subst ty key.
    + split; [exact Htr|]. exists p. split; [exact Hin|]. left.
      split; [exact Hty | reflexivity].
    + split; [exact Htr|]. exists p. split; [exact Hin|]. right.
      split; [exact Hty | reflexivity].
  - intros [Htr [p [Hin [[Hty Hk] | [Hty Hk]]]]]; [left | right];
      exists p; (split; [exact Hk|]); apply filter_In; (split; [exact Hin|]);
      rewrite Hty, Hk; apply andb_true_iff; (split; [reflexivity | exact Htr]).
Qed.

(** X9. The identifiers the route asks the catalog for are pairwise
    distinct, never null, [0] or empty, and are exactly the [question_id]s
    of the [saved] attempts and the [reference_question_id]s of the
    [on_the_fly] attempts. *)
Theorem fetched_question_ids :
  forall (practiceHistory : list Practice.t),
    NoDup (allQuestionIds practiceHistory)
    /\ forall key,
         In key (allQuestionIds practiceHistory)
         <-> truthy_id key = true
             /\ exists p,
                  In p practiceHistory
                  /\ ((Practice.question_type p = Some "saved"%string
                       /\ Practice.question_id p = key)
                      \/ (Practice.question_type p = Some "on_the_fly"%string
                          /\ Practice.reference_question_id p = key)).
Proof.
  intro ps. split.
  - unfold allQuestionIds. apply (unique_NoDup option_Id_eqb option_Id_eqb_eq).
  - apply allQuestionIds_In.
Qed.

Section Fetch.
Variable Date_parse : string -> Date.
Variable questions_pool : list Question.t.

Lemma question_of_fetched : forall ps p,
  In p ps -> typed p ->
  question_of
    (questionsMap_of
       (filter (fun row => existsb (fun key => Gateway.matches Question.id key row)
                             (allQuestionIds ps)) questions_pool)) p
  = question_of (questionsMap_of questions_pool) p.
Proof.
  intros ps p Hin Hty. unfold question_of.
  destruct (questionId p) as [qid|] eqn:Hq; [|reflexivity].
  destruct (truthy_id (Some qid)) eqn:Htr; [|reflexivity].
  assert (Hk : In (Some qid) (allQuestionIds ps)).
  { apply allQuestionIds_In. split; [exact Htr|]. exists p. split; [exact Hin|].
    unfold questionId in Hq. destruct Hty as [Hty | Hty]; rewrite Hty in Hq.
    - left. split; [exact Hty | exact Hq].
    - right. split; [exact Hty | exact Hq]. }
  exact (get_select_in Question.id questions_pool (allQuestionIds ps) qid Hk).
Qed.
End Fetch.

Lemma process_practice_ext :
  forall (Date_parse : string -> Date) qm1 qm2 ps m,
    (forall p, In p ps -> question_of qm1 p = question_of qm2 p) ->
    fold_left (process_practice Date_parse qm1) ps m
    = fold_left (process_practice Date_parse qm2) ps m.
Proof.
  intros Date_parse qm1 qm2 ps. induction ps as [|p ps IH]; intros m H; [reflexivity|].
  simpl. rewrite IH by (intros p' Hin; apply H; right; exact Hin).
  unfold process_practice. rewrite (H p (or_introl eq_refl)). reflexivity.
Qed.

(** X10. For a history whose attempts are all [saved] or [on_the_fly],
    fetching only the questions the history refers to loses nothing: the
    route's payload is the aggregation of the history against the whole
    question pool. *)
Theorem route_aggregates_against_the_pool :
  forall (Date_parse : string -> Date) (questions_pool : list Question.t)
         (practiceHistory : list Practice.t),
    (forall p, In p practiceHistory -> typed p) ->
    mastery_route Date_parse questions_pool practiceHistory
    = computeMastery Date_parse practiceHistory questions_pool.
Proof.
  intros Date_parse pool ps Hty. unfold mastery_route.
  destruct ps as [|p0 ps0] eqn:Hps; [reflexivity|]. rewrite <- Hps in *.
  cbn [Gateway.select_in Response.data].
  unfold computeMastery, masteryMap_of. f_equal. f_equal.
  apply process_practice_ext.
  intros p Hin. apply question_of_fetched; [exact Hin | apply Hty; exact Hin].
Qed.

(* ------------------------------------------------------------------ *)
(** ** The two variants of enrichment                                  *)

Section Variants.
Variable Row : Type.
Variable row_id : Row -> Id.

Lemma batched_is_single : forall table ids key,
  NoDup (map row_id table) -> In key ids ->
  get_or_null (lookup_of row_id (Gateway.select_in row_id table ids)) key
  = Response.data (Gateway.select_eq_single row_id table key).
Proof.
  intros table ids [k|] Hnd Hin.
  - unfold get_or_null. rewrite (get_select_in row_id table ids k Hin).
    apply get_single. exact Hnd.
  - unfold get_or_null, Gateway.select_eq_single.
    assert (E : filter (Gateway.matches row_id None) table = []).
    { induction table as [|r table IH]; [reflexivity|]. simpl. apply IH.
      inversion Hnd; assumption. }
    rewrite E. reflexivity.
Qed.

Lemma filter_matches_none : forall table k,
  ~ In k (map row_id table) ->
  filter (Gateway.matches row_id (Some k)) table = [].
Proof.
  intros table k. induction table as [|r table IH]; intro Hk; [reflexivity|].
  cbn [filter Gateway.matches].
  destruct (Id_eqb (row_id r) k) eqn:E.
  - exfalso. apply Hk. left. apply Id_eqb_eq. exact E.
  - apply IH. intro H. apply Hk. right. exact H.
Qed.

Lemma single_hit : forall table row,
  NoDup (map row_id table) -> In row table ->
  Response.data (Gateway.select_eq_single row_id table (Some (row_id row)))
  = Some row.
Proof.
  intros table row Hnd Hin. unfold Gateway.select_eq_single.
  assert (E : filter (Gateway.matches row_id (Some (row_id row))) table = [row]).
  { induction table as [|r table IH]; [destruct Hin|].
    cbn [map] in Hnd. inversion Hnd as [|? ? Hfresh Hnd']; subst.
    cbn [filter Gateway.matches].
    destruct Hin as [-> | Hin].
    - rewrite (proj2 (Id_eqb_eq (row_id row) (row_id row)) eq_refl).
      rewrite (@filter_matches_none table _ Hfresh). reflexivity.
    - destruct (Id_eqb (row_id r) (row_id row)) eqn:E.
      + exfalso. apply Hfresh. apply Id_eqb_eq in E. rewrite E.
        apply in_map. exact Hin.
      + apply IH; assumption. }
  rewrite E. reflexivity.
Qed.
End Variants.

(** X11. When module and topic identifiers are unique in the store, the
    batched enrichment of a list of standards is, record by record, the
    single-record enrichment of each standard. *)
Theorem enrichment_variants_agree :
  forall (modules : list CModule.t) (topics : list Topic.t)
         (standards : list Standard.t),
    NoDup (map CModule.id modules) ->
    NoDup (map Topic.id topics) ->
    enrichStandardsWithRelations modules topics standards
    = map (enrichedStandard modules topics) standards.
Proof.
  intros modules topics standards Hm Ht.
  unfold enrichStandardsWithRelations, enrich_with. apply map_ext_in.
  intros s Hs. unfold enrichedStandard, enrichedStandard_with. f_equal.
  - apply batched_is_single; [exact Hm|].
    apply (unique_In option_Id_eqb option_Id_eqb_eq).
    apply in_map. exact Hs.
  - apply batched_is_single; [exact Ht|].
    apply (unique_In option_Id_eqb option_Id_eqb_eq).
    apply in_map. exact Hs.
Qed.

(** X12. When module identifiers are unique in the store, a standard
    whose [module_id] is the identifier of a module of the store gets that
    module in the record at its position, in both variants (and likewise
    for topics). *)
Theorem enrichment_resolves_relations :
  forall (modules : list CModule.t) (topics : list Topic.t)
         (standards : list Standard.t) (i : nat) (s : Standard.t),
    nth_error standards i = Some s ->
    exists e,
      nth_error (enrichStandardsWithRelations modules topics standards) i = Some e
      /\ (forall m, NoDup (map CModule.id modules) -> In m modules ->
            Standard.module_id s = Some (CModule.id m) ->
            Enriched.module e = Some m
            /\ Enriched.module (enrichedStandard modules topics s) = Some m)
      /\ (forall t, NoDup (map Topic.id topics) -> In t topics ->
            Standard.topic_id s = Some (Topic.id t) ->
            Enriched.topic e = Some t
            /\ Enriched.topic (enrichedStandard modules topics s) = Some t).
Proof.
  intros modules topics standards i s Hs.
  assert (Hin : In s standards) by (eapply nth_error_In; exact Hs).
  unfold enrichStandardsWithRelations, enrich_with.
  eexists. split; [apply map_nth_error; exact Hs|].
  cbn [Enriched.module Enriched.topic enrichedStandard enrichedStandard_with].
  split.
  - intros m Hnd Hm Hid.
    rewrite (batched_is_single CModule.id modules _ (Standard.module_id s) Hnd)
      by (apply (unique_In option_Id_eqb option_Id_eqb_eq); apply in_map; exact Hin).
    rewrite Hid, (single_hit CModule.id modules m Hnd Hm). split; reflexivity.
  - intros t Hnd Ht Hid.
    rewrite (batched_is_single Topic.id topics _ (Standard.topic_id s) Hnd)
      by (apply (unique_In option_Id_eqb option_Id_eqb_eq); apply in_map; exact Hin).
    rewrite Hid, (single_hit Topic.id topics t Hnd Ht). split; reflexivity.
Qed.

(** X13. A lookup query that fails (its [data] is null) is not an error
    of enrichment: every record is still produced, with [module: null]
    when the module query failed and [topic: null] when the topic query
    failed. *)
Theorem failed_lookup_gives_null_relations :
  forall (modulesResponse : Response.t (list CModule.t))
         (topicsResponse : Response.t (list Topic.t))
         (standards : list Standard.t),
    map Enriched.id (enrich_with modulesResponse topicsResponse standards)
    = map Standard.id standards
    /\ forall e,
         In e (enrich_with modulesResponse topicsResponse standards) ->
         (Response.data modulesResponse = None -> Enriched.module e = None)
         /\ (Response.data topicsResponse = None -> Enriched.topic e = None).
Proof.
  intros modulesResponse topicsResponse standards. unfold enrich_with. split.
  - rewrite map_map. reflexivity.
  - intros e He. apply in_map_iff in He. destruct He as [s [<- _]].
    cbn [Enriched.module Enriched.topic].
    split; intro Hnone; apply lookup_miss; intros rows Hrows; congruence.
Qed.

(* ------------------------------------------------------------------ *)
(** ** The token route                                                 *)

Section TokenRoute.

Lemma split_free : forall sep s,
  Auth.free_of sep s = true -> Auth.split sep s = [s].
Proof.
  intros sep s. induction s as [|c s IH]; intro H; [reflexivity|].
  cbn [Auth.free_of] in H. apply andb_true_iff in H. destruct H as [Hc Hs].
  cbn [Auth.split]. apply negb_true_iff in Hc. rewrite Hc, (IH Hs). reflexivity.
Qed.

Lemma split_append : forall sep a b,
  Auth.free_of sep a = true ->
  Auth.split sep (a ++ String sep b)%string = a :: Auth.split sep b.
Proof.
  intros sep a b. induction a as [|c a IH]; intro H.
  - cbn [String.append Auth.split]. rewrite Ascii.eqb_refl. reflexivity.
  - cbn [Auth.free_of] in H. apply andb_true_iff in H. destruct H as [Hc Ha].
    cbn [String.append Auth.split]. apply negb_true_iff in Hc.
    rewrite Hc, (IH Ha). reflexivity.
Qed.

Lemma truthy_append : forall a c b,
  Auth.truthy (Some (a ++ String c b)%string) = true.
Proof. intros [|x a] c b; reflexivity. Qed.

Lemma supabaseToken_second_field : forall scheme tok,
  Auth.free_of " " scheme = true -> Auth.free_of " " tok = true ->
  Auth.supabaseToken (Some (scheme ++ String " " tok)%string) = Some tok.
Proof.
  intros scheme tok Hs Ht. unfold Auth.supabaseToken.
  rewrite truthy_append, (@split_append _ _ _ Hs), (@split_free _ _ Ht). reflexivity.
Qed.
End TokenRoute.

(** X14. For a header made of a scheme word, one space and a token
    without spaces, the token handed to the identity service is that
    token, whatever the scheme word is: the response depends on the
    identity service only through its answer for that token. *)
Theorem token_is_second_field_of_header :
  forall (scheme tok : string),
    Auth.free_of " " scheme = true ->
    Auth.free_of " " tok = true ->
    Auth.supabaseToken (Some (scheme ++ String " " tok)%string) = Some tok
    /\ forall getUser getUser' generateToken env,
         getUser tok = getUser' tok ->
         Auth.token_route getUser generateToken env
           (Some (scheme ++ String " " tok)%string)
         = Auth.token_route getUser' generateToken env
             (Some (scheme ++ String " " tok)%string).
Proof.
  intros scheme tok Hs Ht.
  pose proof (@supabaseToken_second_field scheme tok Hs Ht) as E.
  split; [exact E|].
  intros getUser getUser' generateToken env Hsame.
  unfold Auth.token_route. rewrite E, Hsame. reflexivity.
Qed.

(** X15. Without consulting the identity service the route answers 401
    "Supabase token required" when the header is absent or empty, when it
    holds no space, and when the scheme word is followed by two spaces. *)
Theorem missing_token_is_unauthorized :
  forall getUser generateToken env,
    let route := Auth.token_route getUser generateToken env in
    route None = Auth.Status401 "Supabase token required"
    /\ (forall h, Auth.free_of " " h = true ->
          route (Some h) = Auth.Status401 "Supabase token required")
    /\ (forall scheme rest, Auth.free_of " " scheme = true ->
          route (Some (scheme ++ String " " (String " " rest))%string)
          = Auth.Status401 "Supabase token required").
Proof.
  intros getUser generateToken env route. unfold route, Auth.token_route.
  split; [reflexivity|]. split.
  - intros h Hh. unfold Auth.supabaseToken.
    destruct (Auth.truthy (Some h)) eqn:E.
    + rewrite (@split_free _ _ Hh). reflexivity.
    + rewrite E. reflexivity.
  - intros scheme rest Hs. unfold Auth.supabaseToken.
    rewrite truthy_append, (@split_append _ _ _ Hs).
    cbn [Auth.split]. rewrite Ascii.eqb_refl. reflexivity.
Qed.

(** X16. A token is issued only for a user that the identity service
    returned, without error, for the token of the header; the response
    carries that user's id and email, the signer's output for them (with
    the empty string for a missing email) and the configured expiry. *)
Theorem token_issued_only_for_verified_user :
  forall getUser generateToken env authHeader apiToken expiresIn id email,
    Auth.token_route getUser generateToken env authHeader
    = Auth.Status200 apiToken expiresIn id email ->
    exists tok u,
      Auth.supabaseToken authHeader = Some tok
      /\ tok <> ""%string
      /\ getUser tok
         = Auth.Resolved
             {| Auth.data_user := Some u; Auth.error := None |}
      /\ id = Auth.user_id u
      /\ email = Auth.user_email u
      /\ generateToken
           {| Auth.userId := Auth.user_id u;
              Auth.email := match Auth.user_email u with
                            | Some e => e
                            | None => ""%string
                            end |}
         = Auth.Resolved apiToken
      /\ expiresIn = Config.expiresIn env.
Proof.
  intros getUser generateToken env authHeader apiToken expiresIn id email.
  unfold Auth.token_route.
  destruct (Auth.supabaseToken authHeader) as [tok|] eqn:Htok; [|discriminate].
  destruct (Auth.truthy (Some tok)) eqn:Htr; [|discriminate].
  cbn [negb].
  destruct (getUser tok) as [[du err]|] eqn:Hget; [|discriminate].
  cbn [Auth.error Auth.data_user].
  destruct err as [err|]; [discriminate|].
  destruct du as [u|]; [|discriminate].
  destruct (generateToken _) as [t|] eqn:Hgen; [|discriminate].
  intro H. inversion H; subst.
  exists tok, u. split; [reflexivity|]. split.
  - intro Hempty. subst tok. discriminate Htr.
  - split; [exact Hget|]. split; [reflexivity|]. split; [reflexivity|].
    split; [exact Hgen | reflexivity].
Qed.

(* ------------------------------------------------------------------ *)
(** ** The further properties at concrete inputs                       *)

Lemma two_zones_in_payload :
  In Scenario.record_two_zones
     (computeMastery IsoDate.parse Scenario.history_two_zones [Scenario.question_one]).
Proof. vm_compute. left. reflexivity. Defined.

Lemma counts_are_numbers_of_attempts_witness :
  (forall p, In p Scenario.history_two_zones ->
     NoDup (codes_of (questionsMap_of [Scenario.question_one]) p))
  /\ Mastery.total_attempts Scenario.record_two_zones = 2
  /\ Mastery.correct_count Scenario.record_two_zones = 1
  /\ Mastery.incorrect_count Scenario.record_two_zones = 1.
Proof.
  assert (Hnd : forall p, In p Scenario.history_two_zones ->
                  NoDup (codes_of (questionsMap_of [Scenario.question_one]) p)).
  { intros p [<- | [<- | []]]; vm_compute; repeat constructor; simpl; tauto. }
  split; [exact Hnd|].
  exact (@counts_are_numbers_of_attempts IsoDate.parse Scenario.history_two_zones
           [Scenario.question_one] Scenario.record_two_zones Hnd two_zones_in_payload).
Defined.

Lemma last_attempted_is_a_contributing_timestamp_witness :
  exists p,
    In p Scenario.history_two_zones
    /\ contributes (questionsMap_of [Scenario.question_one]) "A.1" p = true
    /\ Mastery.last_attempted Scenario.record_two_zones = Practice.created_at p.
Proof.
  exact (@last_attempted_is_a_contributing_timestamp IsoDate.parse
           Scenario.history_two_zones [Scenario.question_one]
           Scenario.record_two_zones two_zones_in_payload).
Defined.

Lemma placement_comes_from_first_attempt_witness :
  exists p q,
    first_contributing (questionsMap_of [Scenario.question_one]) "A.1"
      Scenario.history_two_zones = Some p
    /\ question_of (questionsMap_of [Scenario.question_one]) p = Some q
    /\ Mastery.module_id Scenario.record_two_zones
       = or_id (Practice.module_id p) (Question.module_id q)
    /\ Mastery.topic_id Scenario.record_two_zones
       = or_id (Practice.topic_id p) (Question.topic_id q).
Proof.
  exact (@placement_comes_from_first_attempt IsoDate.parse
           Scenario.history_two_zones [Scenario.question_one]
           Scenario.record_two_zones two_zones_in_payload).
Defined.

Lemma average_lies_between_extremes_witness :
  0 <= sum (latencies (questionsMap_of [Scenario.question_one]) "A.1"
              Scenario.history_two_zones) < 2 ^ 52
  /\ (forall x,
        In x (latencies (questionsMap_of [Scenario.question_one]) "A.1"
                Scenario.history_two_zones) -> 500 <= x <= 700)
  /\ Mastery.avg_response_time_ms Scenario.record_two_zones = Some 600
  /\ 500 <= 600 <= 700.
Proof.
  assert (Hsum : 0 <= sum (latencies (questionsMap_of [Scenario.question_one]) "A.1"
                             Scenario.history_two_zones) < 2 ^ 52)
    by (split; [apply Z.leb_le | apply Z.ltb_lt]; vm_compute; reflexivity).
  assert (Hrange : forall x,
            In x (latencies (questionsMap_of [Scenario.question_one]) "A.1"
                    Scenario.history_two_zones) -> 500 <= x <= 700).
  { intros x Hx. vm_compute in Hx. destruct Hx as [<- | [<- | []]]; lia. }
  split; [exact Hsum|]. split; [exact Hrange|]. split; [reflexivity|].
  exact (@average_lies_between_extremes IsoDate.parse Scenario.history_two_zones
           [Scenario.question_one] Scenario.record_two_zones 600 500 700
           two_zones_in_payload Hsum Hrange eq_refl).
Defined.

Lemma mastery_at_the_extremes_witness :
  In Examples.record_correct
     (computeMastery IsoDate.parse Examples.history_correct [Scenario.question_one])
  /\ Mastery.incorrect_count Examples.record_correct = 0
  /\ Mastery.mastery_percentage Examples.record_correct = 100%Q.
Proof.
  assert (Hin : In Examples.record_correct
                  (computeMastery IsoDate.parse Examples.history_correct
                     [Scenario.question_one]))
    by (vm_compute; left; reflexivity).
  split; [exact Hin|]. split; [reflexivity|].
  exact (proj1 (@mastery_at_the_extremes IsoDate.parse Examples.history_correct
                  [Scenario.question_one] Examples.record_correct Hin) eq_refl).
Defined.


Lemma route_aggregates_against_the_pool_witness :
  (forall p, In p Scenario.history_two_zones -> typed p)
  /\ mastery_route IsoDate.parse [Scenario.question_one] Scenario.history_two_zones
     = computeMastery IsoDate.parse Scenario.history_two_zones [Scenario.question_one].
Proof.
  assert (Hty : forall p, In p Scenario.history_two_zones -> typed p).
  { intros p [<- | [<- | []]]; left; reflexivity. }
  split; [exact Hty|].
  exact (@route_aggregates_against_the_pool IsoDate.parse [Scenario.question_one]
           Scenario.history_two_zones Hty).
Defined.

Lemma modules_have_distinct_ids : NoDup (map CModule.id Scenario.modules).
Proof. repeat constructor; simpl; tauto. Defined.

Lemma topics_have_distinct_ids : NoDup (map Topic.id Scenario.topics).
Proof. repeat constructor; simpl; tauto. Defined.

Lemma enrichment_variants_agree_witness :
  NoDup (map CModule.id Scenario.modules)
  /\ NoDup (map Topic.id Scenario.topics)
  /\ enrichStandardsWithRelations Scenario.modules Scenario.topics
       [Scenario.orphan; Examples.placed]
     = map (enrichedStandard Scenario.modules Scenario.topics)
         [Scenario.orphan; Examples.placed].
Proof.
  split; [exact modules_have_distinct_ids|].
  split; [exact topics_have_distinct_ids|].
  exact (@enrichment_variants_agree Scenario.modules Scenario.topics
           [Scenario.orphan; Examples.placed]
           modules_have_distinct_ids topics_have_distinct_ids).
Defined.

Lemma enrichment_resolves_relations_witness :
  nth_error [Scenario.orphan; Examples.placed] 1 = Some Examples.placed
  /\ In Examples.fractions Scenario.modules
  /\ Standard.module_id Examples.placed = Some (CModule.id Examples.fractions)
  /\ exists e,
       nth_error (enrichStandardsWithRelations Scenario.modules Scenario.topics
                    [Scenario.orphan; Examples.placed]) 1 = Some e
       /\ Enriched.module e = Some Examples.fractions
       /\ Enriched.module
            (enrichedStandard Scenario.modules Scenario.topics Examples.placed)
          = Some Examples.fractions.
Proof.
  assert (Hin : In Examples.fractions Scenario.modules) by (left; reflexivity).
  split; [reflexivity|]. split; [exact Hin|]. split; [reflexivity|].
  destruct (@enrichment_resolves_relations Scenario.modules Scenario.topics
              [Scenario.orphan; Examples.placed] 1%nat Examples.placed eq_refl)
    as [e (He & Hm & _)].
  exists e. split; [exact He|].
  exact (Hm Examples.fractions modules_have_distinct_ids Hin eq_refl).
Defined.

Lemma failed_lookup_gives_null_relations_witness :
  Response.data (Examples.failed (list CModule.t)) = None
  /\ forall e,
       In e (enrich_with (Examples.failed (list CModule.t))
               (Gateway.select_in Topic.id Scenario.topics [Some (IdNum 7)])
               [Examples.placed]) ->
       Enriched.module e = None.
Proof.
  split; [reflexivity|].
  intros e He.
  exact (proj1 (proj2 (@failed_lookup_gives_null_relations
                         (Examples.failed (list CModule.t))
                         (Gateway.select_in Topic.id Scenario.topics [Some (IdNum 7)])
                         [Examples.placed]) e He) eq_refl).
Defined.

Lemma token_is_second_field_of_header_witness :
  Auth.free_of " " "Bearer" = true
  /\ Auth.free_of " " "abc.def" = true
  /\ Auth.supabaseToken (Some "Bearer abc.def"%string) = Some "abc.def"%string.
Proof.
  split; [reflexivity|]. split; [reflexivity|].
  exact (proj1 (@token_is_second_field_of_header "Bearer" "abc.def" eq_refl eq_refl)).
Defined.

Lemma missing_token_is_unauthorized_witness :
  Auth.free_of " " "Bearer" = true
  /\ Auth.token_route Examples.identity Examples.signer Scenario.environment
       (Some "Bearer"%string)
     = Auth.Status401 "Supabase token required"
  /\ Auth.token_route Examples.identity Examples.signer Scenario.environment
       (Some "Bearer  abc.def"%string)
     = Auth.Status401 "Supabase token required".
Proof.
  destruct (missing_token_is_unauthorized Examples.identity Examples.signer
              Scenario.environment) as (_ & H1 & H2).
  split; [reflexivity|]. split.
  - exact (H1 "Bearer"%string eq_refl).
  - exact (H2 "Bearer"%string "abc.def"%string eq_refl).
Defined.

Lemma token_issued_only_for_verified_user_witness :
  Auth.token_route Examples.identity Examples.signer Scenario.environment
    (Some "Bearer abc.def"%string)
  = Auth.Status200 "signed:u-1" "24h" "u-1" (Some "alice@example.org"%string)
  /\ exists tok u,
       Auth.supabaseToken (Some "Bearer abc.def"%string) = Some tok
       /\ tok <> ""%string
       /\ Examples.identity tok
          = Auth.Resolved {| Auth.data_user := Some u; Auth.error := None |}
       /\ "u-1"%string = Auth.user_id u
       /\ Some "alice@example.org"%string = Auth.user_email u
       /\ Examples.signer
            {| Auth.userId := Auth.user_id u;
               Auth.email := match Auth.user_email u with
                             | Some e => e
                             | None => ""%string
                             end |}
          = Auth.Resolved "signed:u-1"%string
       /\ "24h"%string = Config.expiresIn Scenario.environment.
Proof.
  assert (H : Auth.token_route Examples.identity Examples.signer Scenario.environment
                (Some "Bearer abc.def"%string)
              = Auth.Status200 "signed:u-1" "24h" "u-1"
                  (Some "alice@example.org"%string))
    by reflexivity.
  split; [exact H|].
  exact (@token_issued_only_for_verified_user Examples.identity Examples.signer
           Scenario.environment (Some "Bearer abc.def"%string)
           "signed:u-1" "24h" "u-1" (Some "alice@example.org"%string) H).
Defined.
